(** * Mobject.js: path building, shape classification and the update protocol

    A shallow embedding of [src/Mobject.js] (class [Mobject]) and the
    properties of its three layers:
    - the path builder (first loop of [computeShapes]),
    - the shape classifier (the double loop and the trailing loop of
      [computeShapes]),
    - the object lifecycle ([constructor], [update]) with the module-level
      [DEFAULT_STYLE] object and the geometry buffers held by reference.

    JavaScript numbers are idealised as rationals ([Q]); [undefined] is
    [None].  Objects whose identity matters (the style object, geometry
    buffers) live in a store and are held through references. *)

From Stdlib Require Import QArith Qabs.
From stdpp Require Import base option list gmap strings.

Local Open Scope nat_scope.

(** ** Exceptions and outcomes *)

(** The only exception the file can raise is the engine's [TypeError] for a
    property read or a method call on [undefined]: [TypeError e k] records the
    expression [e] that was [undefined] and where: the index read for an array
    element, the iteration for a loop variable, the reference for an object of
    the store. *)
Inductive exn : Type :=
  | TypeError (expr : string) (index : nat).

(** The [name] property of the thrown error object. *)
Definition exn_name (e : exn) : string :=
  match e with
  | TypeError _ _ => "TypeError"%string
  end.

Inductive outcome (A : Type) : Type :=
  | Ok (a : A)
  | Throw (e : exn)
  | OutOfFuel.
Arguments Ok {A} a.
Arguments Throw {A} e.
Arguments OutOfFuel {A}.

Definition bind {A B : Type} (m : outcome A) (f : A -> outcome B) : outcome B :=
  match m with
  | Ok a => f a
  | Throw e => Throw e
  | OutOfFuel => OutOfFuel
  end.

Declare Scope outcome_scope.
Delimit Scope outcome_scope with O.
Notation "x <- m ;; k" := (bind m (fun x => k))
  (at level 100, m at next level, right associativity,
   format "'[v' x  <-  m  ;; '/' k ']'") : outcome_scope.
Local Open Scope outcome_scope.

(** [for (let i = i0; cond; i++) body], the loop variable and the loop state
    threaded explicitly.  A [continue] in the body is a body that returns the
    state it was given. *)
Fixpoint for_loop {St : Type} (fuel : nat) (cond : nat -> St -> bool)
    (body : nat -> St -> outcome St) (i : nat) (s : St) : outcome St :=
  match fuel with
  | O => OutOfFuel
  | S fuel' =>
      if cond i s then s' <- body i s;; for_loop fuel' cond body (S i) s'
      else Ok s
  end.

(** ** The three.js values the file builds *)

(** A point of the input is a JavaScript array of numbers. *)
Definition Point : Type := list Q.

(** [p[c]]: a number, or [undefined] past the end of the array. *)
Definition JSnum : Type := option Q.

Record Vector2 : Type := { vx : JSnum; vy : JSnum }.

Record CubicBezierCurve : Type :=
  { v0 : Vector2; v1 : Vector2; v2 : Vector2; v3 : Vector2 }.

(** [THREE.Path]: the curves pushed so far and the pen position. *)
Record Path : Type := { curves : list CubicBezierCurve; currentPoint : Vector2 }.

(** [THREE.Shape] extends [THREE.Path] with a list of holes. *)
Record Shape : Type := { outline : Path; holes : list Path }.

(** [new THREE.Path()] *)
Definition new_Path : Path :=
  {| curves := []; currentPoint := {| vx := Some 0%Q; vy := Some 0%Q |} |}.

(** [new THREE.Shape()] *)
Definition new_Shape : Shape := {| outline := new_Path; holes := [] |}.

(** [path.moveTo(x, y)] *)
Definition moveTo (x y : JSnum) (p : Path) : Path :=
  {| curves := curves p; currentPoint := {| vx := x; vy := y |} |}.

(** [path.bezierCurveTo(aCP1x, aCP1y, aCP2x, aCP2y, aX, aY)] *)
Definition bezierCurveTo (aCP1x aCP1y aCP2x aCP2y aX aY : JSnum) (p : Path) : Path :=
  {| curves := curves p ++
       [ {| v0 := currentPoint p;
            v1 := {| vx := aCP1x; vy := aCP1y |};
            v2 := {| vx := aCP2x; vy := aCP2y |};
            v3 := {| vx := aX; vy := aY |} |} ];
     currentPoint := {| vx := aX; vy := aY |} |}.

(** [shape.curves.push(...cs)] *)
Definition push_curves (cs : list CubicBezierCurve) (s : Shape) : Shape :=
  {| outline := {| curves := curves (outline s) ++ cs;
                   currentPoint := currentPoint (outline s) |};
     holes := holes s |}.

(** [shape.holes.push(h)] *)
Definition push_hole (h : Path) (s : Shape) : Shape :=
  {| outline := outline s; holes := holes s ++ [h] |}.

(** [points[k]] followed by a property read: throws on [undefined]. *)
Definition readPoint (points : list Point) (k : nat) : outcome Point :=
  match points !! k with
  | Some p => Ok p
  | None => Throw (TypeError "points"%string k)
  end.

(** [points[k][c]] *)
Definition coord (points : list Point) (k c : nat) : outcome JSnum :=
  p <- readPoint points k;; Ok (p !! c).

(** [paths[k]] followed by a property read or a method call. *)
Definition readPath (paths : list Path) (k : nat) : outcome Path :=
  match paths !! k with
  | Some p => Ok p
  | None => Throw (TypeError "paths"%string k)
  end.

(** ** Style objects *)

(** A complete style object: the five fields of [DEFAULT_STYLE].  Colours are
    packed RGB numbers. *)
Record Style : Type :=
  { strokeColor : Q; strokeOpacity : Q; fillColor : Q; fillOpacity : Q;
    strokeWidth : Q }.

(** A [style] argument: any subset of the five fields; [None] is an omitted
    field, which reads as [undefined]. *)
Module StyleArg.
Record t : Type :=
  { strokeColor : JSnum; strokeOpacity : JSnum; fillColor : JSnum;
    fillOpacity : JSnum; strokeWidth : JSnum }.
Definition empty : t :=
  {| strokeColor := None; strokeOpacity := None; fillColor := None;
     fillOpacity := None; strokeWidth := None |}.
End StyleArg.

(** The field values [Object.assign(target, source)] leaves in [target]: the
    own fields of [source] overwrite, the others stay. *)
Definition assign_fields (target : Style) (source : StyleArg.t) : Style :=
  {| strokeColor := default (strokeColor target) (StyleArg.strokeColor source);
     strokeOpacity := default (strokeOpacity target) (StyleArg.strokeOpacity source);
     fillColor := default (fillColor target) (StyleArg.fillColor source);
     fillOpacity := default (fillOpacity target) (StyleArg.fillOpacity source);
     strokeWidth := default (strokeWidth target) (StyleArg.strokeWidth source) |}.

(** The object literal bound to [DEFAULT_STYLE] when the module is loaded. *)
Definition DEFAULT_STYLE_literal : Style :=
  {| strokeColor := 0xffffff%Q; strokeOpacity := 1%Q; fillColor := 0x000000%Q;
     fillOpacity := 1%Q; strokeWidth := 4%Q |}.

Definition STROKE_SHRINK_FACTOR : Q := 100%Q.

(** [v === 0] *)
Definition strict_eq_0 (v : JSnum) : bool :=
  match v with
  | Some q => Qeq_bool q 0%Q
  | None => false
  end.

Arguments strict_eq_0 : simpl never.

(** ** Meshes, materials and references *)

Definition ref : Type := nat.

(** The reference held by the module-level constant [DEFAULT_STYLE]. *)
Definition DEFAULT_STYLE : ref := 0.

Record Vector3 : Type := { x3 : JSnum; y3 : JSnum; z3 : JSnum }.

(** The result of [shape.extractPoints()]. *)
Record ExtractedPoints : Type :=
  { ep_shape : list Vector2; ep_holes : list (list Vector2) }.

(** [THREE.MeshBasicMaterial]; [transparent] and [side] are constants. *)
Record MeshBasicMaterial : Type := { color : Q; opacity : Q }.

(** [MeshLineMaterial]; [transparent] is a constant. *)
Record MeshLineMaterial : Type :=
  { line_color : Q; line_opacity : Q; lineWidth : Q }.

(** [THREE.Mesh]: the geometry is held by reference, the material is owned. *)
Record Mesh (Mat : Type) : Type := { geometry : ref; material : Mat }.
Arguments geometry {Mat} _.
Arguments material {Mat} _.

Record Mobject : Type :=
  { mobjectId : nat;
    style : ref;
    shapes : list Shape;
    fillMesh : Mesh MeshBasicMaterial;
    strokeMesh : Mesh MeshLineMaterial }.

(** ** Concrete collaborators and sample inputs

    One executable choice for every collaborator, used to run the model on
    concrete inputs: a tolerance comparison, the polygon through the end
    points of a path's segments, an even-odd ray cast, and geometry data that
    records how it was produced. *)
Module Fixture.

Definition tolerance : Q := (1 # 100000000)%Q.

Fixpoint allClose (a b : Point) : bool :=
  match a, b with
  | [], [] => true
  | x :: a', y :: b' => Qle_bool (Qabs (x - y)) tolerance && allClose a' b'
  | _, _ => false
  end.

(** The sample at parameter [0] is the start of the first segment. *)
Definition getPoint (p : Path) (t : Q) : Vector2 :=
  match curves p with
  | c :: _ => v0 c
  | [] => currentPoint p
  end.

Definition getPoints (p : Path) : list Vector2 :=
  match curves p with
  | c :: _ => v0 c :: map v3 (curves p)
  | [] => []
  end.

Definition num (v : JSnum) : Q := default 0%Q v.

(** Does the horizontal ray from [pt] to the right cross the edge [a]-[b]? *)
Definition crosses (pt a b : Vector2) : bool :=
  let x := num (vx pt) in let y := num (vy pt) in
  let xi := num (vx a) in let yi := num (vy a) in
  let xj := num (vx b) in let yj := num (vy b) in
  xorb (negb (Qle_bool yi y)) (negb (Qle_bool yj y))
  && negb (Qle_bool ((xj - xi) * (y - yi) / (yj - yi) + xi) x).

Fixpoint crossings (pt prev : Vector2) (poly : list Vector2) : bool :=
  match poly with
  | [] => false
  | a :: rest => xorb (crosses pt a prev) (crossings pt a rest)
  end.

Definition isPointInsidePolygon (pt : Vector2) (poly : list Vector2) : bool :=
  match last poly with
  | Some l => crossings pt l poly
  | None => false
  end.

(** Geometry data: a fill remembers the shapes it was last built from and
    how often it was updated in place; a ribbon is its polylines. *)
Inductive Geom : Type :=
  | Fill (shs : list Shape) (divisions : nat) (updates : nat)
  | Ribbon (polylines : list (list Vector3)).

Definition MobjectFillBufferGeometry (shs : list Shape) (divisions : nat) : Geom :=
  Fill shs divisions 0.

Definition fill_update (g : Geom) (shs : list Shape) : Geom :=
  match g with
  | Fill _ d n => Fill shs d (S n)
  | Ribbon _ => g
  end.

Definition MeshLine_geometry (vs : list Vector3) : Geom := Ribbon [vs].

Definition polylines_of (g : Geom) : list (list Vector3) :=
  match g with
  | Ribbon ls => ls
  | Fill _ _ _ => []
  end.

Definition mergeBufferGeometries (gs : list Geom) : Geom :=
  Ribbon (concat (map polylines_of gs)).

Definition extractPoints (s : Shape) : ExtractedPoints :=
  {| ep_shape := getPoints (outline s); ep_holes := map getPoints (holes s) |}.

(** A straight segment from [(ax, ay)] to [(bx, by)] as four control points. *)
Definition segment (ax ay bx by_ : Q) : list Point :=
  [ [ax; ay; 0%Q]; [ax; ay; 0%Q]; [bx; by_; 0%Q]; [bx; by_; 0%Q] ].

(** The square with lower left corner [(x, y)] and side [w]: four segments. *)
Definition square (x y w : Q) : list Point :=
  (segment x y (x + w) y ++ segment (x + w) y (x + w) (y + w)
   ++ segment (x + w) (y + w) x (y + w) ++ segment x (y + w) x y)%Q.

Definition outer_square : list Point := square 0%Q 0%Q 10%Q.
Definition inner_square : list Point := square 2%Q 2%Q 2%Q.
Definition far_square : list Point := square 20%Q 20%Q 2%Q.

End Fixture.

Section Mobject.

(** ** computeShapes *)

(** [utils.allClose], [utils.isPointInsidePolygon] (module [./utils]) and the
    samplers [Path.getPoint], [Path.getPoints] of three.js are collaborators
    of this file: total functions, otherwise arbitrary. *)
Variable allClose : Point -> Point -> bool.
Variable getPoint : Path -> Q -> Vector2.
Variable getPoints : Path -> list Vector2.
Variable isPointInsidePolygon : Vector2 -> list Vector2 -> bool.

(** *** Path building (the first loop) *)

(** The variables of the loop.  [path] is [undefined] until the first
    [new THREE.Path()].  A path is pushed to [paths] exactly when [move]
    becomes true, and the next iteration then binds [path] to a new object, so
    a pushed path is never written again: [paths] holds values. *)
Record BuildState : Type :=
  { paths : list Path; path : option Path; move : bool }.

Definition buildBody (points : list Point) (i : nat) (st : BuildState)
    : outcome BuildState :=
  let curveStartIndex := 4 * i in
  path1 <-
    (if move st then
       x <- coord points curveStartIndex 0;;
       y <- coord points curveStartIndex 1;;
       Ok (Some (moveTo x y new_Path))
     else Ok (path st));;
  c1x <- coord points (curveStartIndex + 1) 0;;
  c1y <- coord points (curveStartIndex + 1) 1;;
  c2x <- coord points (curveStartIndex + 2) 0;;
  c2y <- coord points (curveStartIndex + 2) 1;;
  ex <- coord points (curveStartIndex + 3) 0;;
  ey <- coord points (curveStartIndex + 3) 1;;
  path2 <-
    match path1 with
    | Some p => Ok (bezierCurveTo c1x c1y c2x c2y ex ey p)
    | None => Throw (TypeError "path"%string i)
    end;;
  move1 <-
    (if (curveStartIndex + 4 =? length points)%nat then Ok true
     else
       lastPoint <- readPoint points (curveStartIndex + 3);;
       nextPoint <- readPoint points (curveStartIndex + 4);;
       Ok (negb (allClose lastPoint nextPoint)));;
  Ok {| paths := if move1 then paths st ++ [path2] else paths st;
        path := Some path2;
        move := move1 |}.

(** [i < points.length / 4] is a comparison of reals: [4 * i < length]. *)
Definition buildCond (points : list Point) (i : nat) (_ : BuildState) : bool :=
  (4 * i <? length points)%nat.

Definition buildInit : BuildState :=
  {| paths := []; path := None; move := true |}.

Definition buildPaths (points : list Point) : outcome (list Path) :=
  st <- for_loop (S (length points)) (buildCond points) (buildBody points) 0 buildInit;;
  Ok (paths st).

(** *** Classification (the double loop and the trailing loop) *)

Record InnerState : Type :=
  { known_shape : option Shape; inner_decided : gset nat }.

Record ClassifyState : Type :=
  { shapes_acc : list Shape; decided_path_indices : gset nat }.

Definition innerBody (ps : list Path) (i : nat) (test_shape : Path)
    (j : nat) (st : InnerState) : outcome InnerState :=
  if bool_decide (i = j) || bool_decide (j ∈ inner_decided st) then Ok st
  else
    test_hole <- readPath ps j;;
    let shapeContainsHole :=
      isPointInsidePolygon (getPoint test_hole 0%Q) (getPoints test_shape) in
    if shapeContainsHole then
      match known_shape st with
      | None =>
          let shape := push_hole test_hole (push_curves (curves test_shape) new_Shape) in
          Ok {| known_shape := Some shape;
                inner_decided := {[ j ]} ∪ ({[ i ]} ∪ inner_decided st) |}
      | Some known =>
          Ok {| known_shape := Some (push_hole test_hole known);
                inner_decided := {[ j ]} ∪ inner_decided st |}
      end
    else Ok st.

Definition indexCond (ps : list Path) {St : Type} (i : nat) (_ : St) : bool :=
  (i <? length ps)%nat.

Definition outerBody (ps : list Path) (i : nat) (st : ClassifyState)
    : outcome ClassifyState :=
  if bool_decide (i ∈ decided_path_indices st) then Ok st
  else
    test_shape <- readPath ps i;;
    inner <- for_loop (S (length ps)) (indexCond ps) (innerBody ps i test_shape) 0
              {| known_shape := None; inner_decided := decided_path_indices st |};;
    Ok {| shapes_acc :=
            match known_shape inner with
            | Some known => shapes_acc st ++ [known]
            | None => shapes_acc st
            end;
          decided_path_indices := inner_decided inner |}.

(** [i < paths.length && !decided_path_indices.has(i)] *)
Definition restCond (ps : list Path) (i : nat) (st : ClassifyState) : bool :=
  (i <? length ps)%nat && negb (bool_decide (i ∈ decided_path_indices st)).

Definition restBody (ps : list Path) (i : nat) (st : ClassifyState)
    : outcome ClassifyState :=
  p <- readPath ps i;;
  Ok {| shapes_acc := shapes_acc st ++ [push_curves (curves p) new_Shape];
        decided_path_indices := decided_path_indices st |}.

Definition classify (ps : list Path) : outcome (list Shape) :=
  st <- for_loop (S (length ps)) (indexCond ps) (outerBody ps) 0
         {| shapes_acc := []; decided_path_indices := ∅ |};;
  st' <- for_loop (S (length ps)) (restCond ps) (restBody ps) 0 st;;
  Ok (shapes_acc st').

Definition computeShapes (points : list Point) : outcome (list Shape) :=
  ps <- buildPaths points;;
  classify ps.


(** ** The store: style objects and geometry buffers *)

(** The attribute data of a buffer geometry and the collaborators that
    produce it: the fill tessellator ([MobjectFillBufferGeometry], its
    constructor and its in-place [update]), [shape.extractPoints()], the
    geometry of a [MeshLine] and [BufferGeometryUtils.mergeBufferGeometries]. *)
Variable Geom : Type.
Variable MobjectFillBufferGeometry : list Shape -> nat -> Geom.
Variable fill_update : Geom -> list Shape -> Geom.
Variable extractPoints : Shape -> ExtractedPoints.
Variable MeshLine_geometry : list Vector3 -> Geom.
Variable mergeBufferGeometries : list Geom -> Geom.

Record BufferGeometry : Type := { content : Geom; disposed : bool }.

Record Store : Type :=
  { styles : gmap ref Style; geometries : gmap ref BufferGeometry }.

(** The store once the module is loaded: [DEFAULT_STYLE] is bound. *)
Definition module_loaded : Store :=
  {| styles := {[ DEFAULT_STYLE := DEFAULT_STYLE_literal ]}; geometries := ∅ |}.

(** Computations on the store; the store survives an exception. *)
Definition M (A : Type) : Type := Store -> outcome A * Store.

Definition ret {A : Type} (a : A) : M A := fun σ => (Ok a, σ).

Definition bind_M {A B : Type} (m : M A) (f : A -> M B) : M B := fun σ =>
  match m σ with
  | (Ok a, σ') => f a σ'
  | (Throw e, σ') => (Throw e, σ')
  | (OutOfFuel, σ') => (OutOfFuel, σ')
  end.

Definition lift {A : Type} (o : outcome A) : M A := fun σ => (o, σ).

(** [r.field] for a style object [r] *)
Definition read_style (r : ref) : M Style := fun σ =>
  match styles σ !! r with
  | Some s => (Ok s, σ)
  | None => (Throw (TypeError "style"%string r), σ)
  end.

(** [Object.assign(target, source)]: writes into [target], returns [target]. *)
Definition Object_assign (target : ref) (source : StyleArg.t) : M ref := fun σ =>
  match styles σ !! target with
  | Some s =>
      (Ok target,
       {| styles := <[ target := assign_fields s source ]> (styles σ);
          geometries := geometries σ |})
  | None => (Throw (TypeError "style"%string target), σ)
  end.

(** A new buffer geometry object with data [g]. *)
Definition new_geometry (g : Geom) : M ref := fun σ =>
  let r := fresh (dom (geometries σ)) in
  (Ok r,
   {| styles := styles σ;
      geometries := <[ r := {| content := g; disposed := false |} ]> (geometries σ) |}).

(** [r.dispose()] *)
Definition geometry_dispose (r : ref) : M unit := fun σ =>
  match geometries σ !! r with
  | Some b =>
      (Ok tt,
       {| styles := styles σ;
          geometries := <[ r := {| content := content b; disposed := true |} ]> (geometries σ) |})
  | None => (Throw (TypeError "geometry"%string r), σ)
  end.

(** [r.update(shapes)] on the fill geometry: same object, new data. *)
Definition geometry_update (r : ref) (shs : list Shape) : M unit := fun σ =>
  match geometries σ !! r with
  | Some b =>
      (Ok tt,
       {| styles := styles σ;
          geometries :=
            <[ r := {| content := fill_update (content b) shs; disposed := disposed b |} ]>
              (geometries σ) |})
  | None => (Throw (TypeError "geometry"%string r), σ)
  end.

Declare Scope store_scope.
Delimit Scope store_scope with M.
Notation "x <- m ;; k" := (bind_M m (fun x => k))
  (at level 100, m at next level, right associativity) : store_scope.

(** ** The Mobject class *)

(** Field assignments [this.f = v]. *)
Definition set_style (r : ref) (this : Mobject) : Mobject :=
  {| mobjectId := mobjectId this; style := r; shapes := shapes this;
     fillMesh := fillMesh this; strokeMesh := strokeMesh this |}.

Definition set_shapes (shs : list Shape) (this : Mobject) : Mobject :=
  {| mobjectId := mobjectId this; style := style this; shapes := shs;
     fillMesh := fillMesh this; strokeMesh := strokeMesh this |}.

Definition set_fill_material (m : MeshBasicMaterial) (this : Mobject) : Mobject :=
  {| mobjectId := mobjectId this; style := style this; shapes := shapes this;
     fillMesh := {| geometry := geometry (fillMesh this); material := m |};
     strokeMesh := strokeMesh this |}.

Definition set_stroke_material (m : MeshLineMaterial) (this : Mobject) : Mobject :=
  {| mobjectId := mobjectId this; style := style this; shapes := shapes this;
     fillMesh := fillMesh this;
     strokeMesh := {| geometry := geometry (strokeMesh this); material := m |} |}.

Definition set_stroke_geometry (g : ref) (this : Mobject) : Mobject :=
  {| mobjectId := mobjectId this; style := style this; shapes := shapes this;
     fillMesh := fillMesh this;
     strokeMesh := {| geometry := g; material := material (strokeMesh this) |} |}.

(** [BufferGeometryUtils.mergeBufferGeometries(geometries)] as a call: the
    function first reads [geometries[0].index], which throws on the empty
    array. *)
Definition mergeBufferGeometries_call (geometries : list Geom) : outcome Geom :=
  match geometries with
  | [] => Throw (TypeError "geometries"%string 0)
  | _ :: _ => Ok (mergeBufferGeometries geometries)
  end.

(** The array merged here holds the geometry of the outline and one geometry
    per hole: it is never empty, and the merge returns. *)
Definition createMeshLineGeometries (shape : Shape) : Geom :=
  let extractedPoints := extractPoints shape in
  let meshLineGeometries :=
    map (fun vecList =>
           MeshLine_geometry
             (map (fun point => {| x3 := vx point; y3 := vy point; z3 := Some 0%Q |})
                  vecList))
        (ep_shape extractedPoints :: ep_holes extractedPoints) in
  mergeBufferGeometries meshLineGeometries.

(** The methods below that run while the constructor is still filling in
    [this] take the fields they read. *)

(** reads [this.shapes] *)
Definition computeStrokeGeometry (this_shapes : list Shape) : M ref :=
  (merged <- lift (mergeBufferGeometries_call (map createMeshLineGeometries this_shapes));;
   new_geometry merged)%M.

(** reads [this.style] *)
Definition computeStrokeMaterial (this_style : ref) : M MeshLineMaterial :=
  (s <- read_style this_style;;
   ret {| line_color := strokeColor s;
          line_opacity := strokeOpacity s;
          lineWidth := (strokeWidth s / STROKE_SHRINK_FACTOR)%Q |})%M.

Definition updateStrokeMaterial (this : Mobject) : M Mobject :=
  (s <- read_style (style this);;
   ret (set_stroke_material
          {| line_color := strokeColor s;
             line_opacity := strokeOpacity s;
             lineWidth := (strokeWidth s / STROKE_SHRINK_FACTOR)%Q |} this))%M.

(** reads [this.shapes] *)
Definition computeFillGeometry (this_shapes : list Shape) : M ref :=
  new_geometry (MobjectFillBufferGeometry this_shapes 11).

Definition updateFillGeometry (this : Mobject) : M unit :=
  geometry_update (geometry (fillMesh this)) (shapes this).

(** reads [this.style] *)
Definition computeFillMaterial (this_style : ref) : M MeshBasicMaterial :=
  (s <- read_style this_style;;
   ret {| color := fillColor s; opacity := fillOpacity s |})%M.

Definition updateFillMaterial (this : Mobject) : M Mobject :=
  (s <- read_style (style this);;
   ret (set_fill_material {| color := fillColor s; opacity := fillOpacity s |} this))%M.

Definition constructor (id : nat) (points : list Point) (style_arg : StyleArg.t)
    : M Mobject :=
  (this_style <- Object_assign DEFAULT_STYLE style_arg;;
   this_shapes <- lift (computeShapes points);;
   fillGeometry <- computeFillGeometry this_shapes;;
   fillMaterial <- computeFillMaterial this_style;;
   strokeGeometry <- computeStrokeGeometry this_shapes;;
   strokeMaterial <- computeStrokeMaterial this_style;;
   ret {| mobjectId := id;
          style := this_style;
          shapes := this_shapes;
          fillMesh := {| geometry := fillGeometry; material := fillMaterial |};
          strokeMesh := {| geometry := strokeGeometry; material := strokeMaterial |} |})%M.

Definition update (this : Mobject) (points : list Point) (style_arg : StyleArg.t)
    (needsRedraw : bool) : M Mobject :=
  (this <-
     (if needsRedraw then
        this_shapes <- lift (computeShapes points);;
        let this := set_shapes this_shapes this in
        cur <- read_style (style this);;
        u <- (if negb (strict_eq_0 (Some (fillOpacity cur))
                       && strict_eq_0 (StyleArg.fillOpacity style_arg))
              then updateFillGeometry this
              else ret tt);;
        cur <- read_style (style this);;
        if negb (strict_eq_0 (Some (strokeOpacity cur))
                 && strict_eq_0 (StyleArg.strokeOpacity style_arg))
        then
          u <- geometry_dispose (geometry (strokeMesh this));;
          strokeGeometry <- computeStrokeGeometry (shapes this);;
          ret (set_stroke_geometry strokeGeometry this)
        else ret this
      else ret this);;
   this_style <- Object_assign (style this) style_arg;;
   let this := set_style this_style this in
   this <- updateFillMaterial this;;
   updateStrokeMaterial this)%M.

(** ** Vocabulary of the statements *)

Definition vec2 (p : Point) : Vector2 := {| vx := p !! 0; vy := p !! 1 |}.

(** The value of [move] at the end of iteration [i], [p3] being the end point
    of segment [i]. *)
Definition move_after (points : list Point) (i : nat) (p3 : Point) : bool :=
  if (4 * i + 4 =? length points)%nat then true
  else match points !! (4 * i + 4) with
       | Some nextPoint => negb (allClose p3 nextPoint)
       | None => true
       end.

(** The number of segments held by a list of paths. *)
Definition segment_count (ps : list Path) : nat :=
  sum_list_with (fun p => length (curves p)) ps.

(** The segments of the path under construction that are not yet in [paths]. *)
Definition open_segments (st : BuildState) : nat :=
  if move st then 0
  else match path st with
       | Some p => length (curves p)
       | None => 0
       end.

(** Every segment end is close to the start of the next segment. *)
Definition chained (points : list Point) : Prop :=
  forall k pa pb,
    points !! (4 * k + 3) = Some pa -> points !! (4 * k + 4) = Some pb ->
    allClose pa pb = true.

(** Where the pen is when segment [k] of a single path is appended: at the
    first point of the input, or at the end of segment [k - 1]. *)
Definition start_index (k : nat) : nat :=
  match k with
  | O => 0
  | S k' => 4 * k' + 3
  end.

(** The curve [c] is segment [k] of the input: it starts at the pen and has
    the segment's two control points and its end point. *)
Definition is_segment (points : list Point) (k : nat) (c : CubicBezierCurve) : Prop :=
  exists ps p1 p2 p3,
    points !! start_index k = Some ps /\
    points !! (4 * k + 1) = Some p1 /\
    points !! (4 * k + 2) = Some p2 /\
    points !! (4 * k + 3) = Some p3 /\
    v0 c = vec2 ps /\ v1 c = vec2 p1 /\ v2 c = vec2 p2 /\ v3 c = vec2 p3.

(** The path [p] holds exactly the first [i] segments of the input, in order,
    and its pen is where segment [i] would start. *)
Definition built_from (points : list Point) (i : nat) (p : Path) : Prop :=
  length (curves p) = i /\
  (forall k, k < i -> exists c, curves p !! k = Some c /\ is_segment points k c) /\
  (forall ps, points !! start_index i = Some ps -> currentPoint p = vec2 ps).

(** The invariant of the first loop on a chained sequence: nothing is pushed
    before the last segment, and the one path under construction holds the
    segments consumed so far. *)
Definition chain_inv (points : list Point) (i : nat) (st : BuildState) : Prop :=
  4 * i <= length points /\
  ((i = 0 /\ st = buildInit) \/
   (0 < i /\ exists p,
      path st = Some p /\ built_from points i p /\
      ((4 * i < length points /\ move st = false /\ paths st = []) \/
       (4 * i = length points /\ move st = true /\ paths st = [p])))).

(** The materials a refresh derives from a style object. *)
Definition fill_material_of (s : Style) : MeshBasicMaterial :=
  {| color := fillColor s; opacity := fillOpacity s |}.

Definition stroke_material_of (s : Style) : MeshLineMaterial :=
  {| line_color := strokeColor s;
     line_opacity := strokeOpacity s;
     lineWidth := (strokeWidth s / STROKE_SHRINK_FACTOR)%Q |}.

(** The two tests of [update] that skip a geometry: the current style object
    against the raw [style] argument. *)
Definition skips_fill (s : Style) (style_arg : StyleArg.t) : bool :=
  strict_eq_0 (Some (fillOpacity s)) && strict_eq_0 (StyleArg.fillOpacity style_arg).

Definition skips_stroke (s : Style) (style_arg : StyleArg.t) : bool :=
  strict_eq_0 (Some (strokeOpacity s)) && strict_eq_0 (StyleArg.strokeOpacity style_arg).

(** The references an entity holds are bound in the store, and its two
    geometries are two objects. *)
Definition entity_ok (σ : Store) (this : Mobject) : Prop :=
  is_Some (styles σ !! style this) /\
  is_Some (geometries σ !! geometry (fillMesh this)) /\
  is_Some (geometries σ !! geometry (strokeMesh this)) /\
  geometry (fillMesh this) <> geometry (strokeMesh this).

(** The joint after segment [k] is open: [points[4k+3]] is not close to
    [points[4k+4]], or segment [k] is the last one. *)
Definition joint_open (points : list Point) (k : nat) : bool :=
  match points !! (4 * k + 3), points !! (4 * k + 4) with
  | Some lastPoint, Some nextPoint => negb (allClose lastPoint nextPoint)
  | _, _ => true
  end.

(** Segment [k] is the first of its path. *)
Definition starts_path (points : list Point) (k : nat) : bool :=
  match k with
  | O => true
  | S k' => joint_open points k'
  end.

(** The point the pen is at when segment [k] is appended: the segment's own
    start point after a [moveTo], the end point of segment [k - 1] otherwise. *)
Definition pen_index (points : list Point) (k : nat) : nat :=
  if starts_path points k then 4 * k else 4 * k - 1.

(** The curve that segment [k] contributes. *)
Definition segment_curve (points : list Point) (k : nat) : option CubicBezierCurve :=
  match points !! pen_index points k, points !! (4 * k + 1),
        points !! (4 * k + 2), points !! (4 * k + 3) with
  | Some ps, Some p1, Some p2, Some p3 =>
      Some {| v0 := vec2 ps; v1 := vec2 p1; v2 := vec2 p2; v3 := vec2 p3 |}
  | _, _, _, _ => None
  end.

(** The number of open joints among the first [i]. *)
Fixpoint count_open (points : list Point) (i : nat) : nat :=
  match i with
  | O => 0
  | S i' => count_open points i' + (if joint_open points i' then 1 else 0)
  end.

(** The curves of the pushed paths followed by those of the open path. *)
Definition all_curves (st : BuildState) : list CubicBezierCurve :=
  concat (map curves (paths st)) ++
  (if move st then []
   else match path st with
        | Some p => curves p
        | None => []
        end).

(** The invariant of the first loop on complete segments: the curves built so
    far are the first [i] segments in order, every pushed path is non-empty,
    and a path was pushed at each open joint. *)
Definition build_inv (points : list Point) (i : nat) (st : BuildState) : Prop :=
  4 * i <= length points /\
  Forall (fun p => curves p <> []) (paths st) /\
  length (paths st) = count_open points i /\
  length (all_curves st) = i /\
  (forall k, k < i -> all_curves st !! k = segment_curve points k) /\
  move st = starts_path points i /\
  (move st = false -> exists p,
     path st = Some p /\ curves p <> [] /\
     forall pe, points !! (4 * i - 1) = Some pe -> currentPoint p = vec2 pe).

(** The shape the trailing loop builds from a path: its curves, no hole. *)
Definition trivial_shape (p : Path) : Shape := push_curves (curves p) new_Shape.

(** The number of holes held by a list of shapes. *)
Definition hole_count (shs : list Shape) : nat :=
  sum_list_with (fun s => length (holes s)) shs.

(** The shape [s] is made of input paths: its outline has the curves of an
    input path, and each of its holes is an input path whose first sampled
    point passed the containment test against that path. *)
Definition shape_from (ps : list Path) (s : Shape) : Prop :=
  exists p,
    p ∈ ps /\ curves (outline s) = curves p /\
    forall h, h ∈ holes s ->
      h ∈ ps /\ isPointInsidePolygon (getPoint h 0%Q) (getPoints p) = true.

(** No path passes the containment test against another path. *)
Definition no_containment (ps : list Path) : Prop :=
  forall i j a b,
    i <> j -> ps !! i = Some a -> ps !! j = Some b ->
    isPointInsidePolygon (getPoint b 0%Q) (getPoints a) = false.

(** The first path passes the containment test for some other path. *)
Definition first_path_contains (ps : list Path) : Prop :=
  exists j p0 pj,
    0 < j /\ ps !! 0 = Some p0 /\ ps !! j = Some pj /\
    isPointInsidePolygon (getPoint pj 0%Q) (getPoints p0) = true.

(** The invariant of the inner loop for the candidate [i], its path
    [test_shape] and the decided set [d0] the loop started from. *)
Definition inner_inv (ps : list Path) (i : nat) (test_shape : Path) (d0 : gset nat)
    (j : nat) (st : InnerState) : Prop :=
  d0 ⊆ inner_decided st /\
  (forall x, x ∈ inner_decided st -> x < length ps) /\
  (forall x, x ∈ inner_decided st -> x ∈ d0 \/ x = i \/ x < j) /\
  (forall j' pj, j' < j -> j' <> i -> j' ∉ d0 -> ps !! j' = Some pj ->
     isPointInsidePolygon (getPoint pj 0%Q) (getPoints test_shape) = true ->
     i ∈ inner_decided st) /\
  (no_containment ps -> known_shape st = None) /\
  match known_shape st with
  | None => inner_decided st = d0
  | Some s =>
      curves (outline s) = curves test_shape /\
      holes s <> [] /\
      (forall h, h ∈ holes s ->
         h ∈ ps /\
         isPointInsidePolygon (getPoint h 0%Q) (getPoints test_shape) = true) /\
      i ∈ inner_decided st /\
      size (inner_decided st) = size d0 + 1 + length (holes s)
  end.

(** The invariant of the outer loop: every shape built so far is made of
    input paths and has a hole, and the decided indices are exactly the paths
    used, each once. *)
Definition outer_inv (ps : list Path) (i : nat) (st : ClassifyState) : Prop :=
  (forall x, x ∈ decided_path_indices st -> x < length ps) /\
  Forall (fun s => shape_from ps s /\ holes s <> []) (shapes_acc st) /\
  length (shapes_acc st) + hole_count (shapes_acc st)
    = size (decided_path_indices st) /\
  (i = 0 -> decided_path_indices st = ∅) /\
  (first_path_contains ps -> 0 < i -> 0 ∈ decided_path_indices st) /\
  (no_containment ps -> decided_path_indices st = ∅ /\ shapes_acc st = []).

(** The invariant of the trailing loop, started from [st0]: the indices below
    [k] are undecided and their paths were appended as trivial shapes. *)
Definition rest_inv (ps : list Path) (st0 : ClassifyState) (k : nat)
    (st : ClassifyState) : Prop :=
  decided_path_indices st = decided_path_indices st0 /\
  shapes_acc st = shapes_acc st0 ++ map trivial_shape (take k ps) /\
  (forall x, x < k -> x ∉ decided_path_indices st0) /\
  k <= length ps.

(** The shape [s] is assigned the path indices [a]: the path at the first
    index has the curves of its outline, and its holes are, in order, the
    paths at the indices of the list. *)
Definition uses (ps : list Path) (s : Shape) (a : nat * list nat) : Prop :=
  (exists p, ps !! a.1 = Some p /\ curves (outline s) = curves p) /\
  Forall2 (fun h j => ps !! j = Some h) (holes s) a.2.

(** All the path indices of an assignment, outlines and holes alike. *)
Definition used_indices (asg : list (nat * list nat)) : list nat :=
  concat (map (fun a => a.1 :: a.2) asg).

(** The inner loop for the candidate [i], started from the decided set [d0]:
    the shape under construction uses [i] and undecided indices, each once,
    and all of them are decided now. *)
Definition inner_asg (ps : list Path) (i : nat) (d0 : gset nat) (st : InnerState)
    : Prop :=
  d0 ⊆ inner_decided st /\
  match known_shape st with
  | None => True
  | Some s =>
      exists js,
        uses ps s (i, js) /\ NoDup (i :: js) /\
        (forall j, j ∈ i :: js -> j ∉ d0 /\ j ∈ inner_decided st)
  end.

(** The shapes built so far have an assignment that uses no index twice, and
    every index used is decided or, in the trailing loop, below [k]. *)
Definition shapes_asg (ps : list Path) (k : nat) (st : ClassifyState) : Prop :=
  exists asg,
    Forall2 (uses ps) (shapes_acc st) asg /\
    NoDup (used_indices asg) /\
    (forall x, x ∈ used_indices asg -> x ∈ decided_path_indices st \/ x < k).

(** * Properties *)

(** Runs a computation on the store up to the next read it cannot resolve. *)
Ltac run_store := repeat progress (simpl; rewrite ?lookup_insert_eq).

(** ** Loops *)

(** A loop whose body keeps an invariant and whose guard bounds the index by
    [n] returns, with the invariant and the negated guard. *)
Lemma for_loop_inv {St : Type} (Inv : nat -> St -> Prop)
    (cond : nat -> St -> bool) (body : nat -> St -> outcome St) (n : nat) :
  (forall i s, Inv i s -> cond i s = true ->
     i < n /\ exists s', body i s = Ok s' /\ Inv (S i) s') ->
  forall fuel i s, Inv i s -> n - i < fuel ->
  exists k s', for_loop fuel cond body i s = Ok s' /\ Inv k s' /\ cond k s' = false.
Proof.
  intros Hstep fuel. induction fuel as [|fuel IH]; intros i s Hinv Hfuel; [lia|].
  simpl. destruct (cond i s) eqn:Hc.
  - destruct (Hstep i s Hinv Hc) as (Hlt & s' & Hb & Hinv').
    rewrite Hb. simpl. apply IH; [done|lia].
  - exists i, s. done.
Qed.

(** A loop whose guard holds under the invariant, and whose body either keeps
    the invariant below [n] or throws [e], throws [e]. *)
Lemma for_loop_throws {St : Type} (Inv : nat -> St -> Prop)
    (cond : nat -> St -> bool) (body : nat -> St -> outcome St) (n : nat) (e : exn) :
  (forall i s, Inv i s ->
     cond i s = true /\
     (body i s = Throw e \/ (i < n /\ exists s', body i s = Ok s' /\ Inv (S i) s'))) ->
  forall fuel i s, Inv i s -> n - i < fuel ->
  for_loop fuel cond body i s = Throw e.
Proof.
  intros Hstep fuel. induction fuel as [|fuel IH]; intros i s Hinv Hfuel; [lia|].
  simpl. destruct (Hstep i s Hinv) as (Hc & [Hb | (Hlt & s' & Hb & Hinv')]).
  - rewrite Hc, Hb. done.
  - rewrite Hc, Hb. simpl. apply IH; [done|lia].
Qed.

(** Whatever a loop returns satisfies an invariant its body preserves. *)
Lemma for_loop_preserves {St : Type} (Inv : nat -> St -> Prop)
    (cond : nat -> St -> bool) (body : nat -> St -> outcome St) :
  (forall i s s', Inv i s -> cond i s = true -> body i s = Ok s' -> Inv (S i) s') ->
  forall fuel i s s', Inv i s -> for_loop fuel cond body i s = Ok s' ->
  exists k, Inv k s'.
Proof.
  intros Hstep fuel. induction fuel as [|fuel IH]; intros i s s' Hinv Hrun; [done|].
  simpl in Hrun. destruct (cond i s) eqn:Hc.
  - destruct (body i s) as [s1| |] eqn:Hb; [|done|done]. cbn [bind] in Hrun.
    apply (IH (S i) s1 s'); [|done]. by apply (Hstep i s).
  - injection Hrun as <-. by exists i.
Qed.

(** ** Path building *)

Lemma coord_Some (points : list Point) (k c : nat) (p : Point) :
  points !! k = Some p -> coord points k c = Ok (p !! c).
Proof. intros H. unfold coord, readPoint. rewrite H. done. Qed.

Lemma coord_None (points : list Point) (k c : nat) :
  points !! k = None -> coord points k c = Throw (TypeError "points" k).
Proof. intros H. unfold coord, readPoint. rewrite H. done. Qed.

(** One iteration over a complete segment. *)
Lemma buildBody_segment (points : list Point) (i : nat) (st : BuildState)
    (p0 p1 p2 p3 : Point) (base : Path) :
  points !! (4 * i) = Some p0 ->
  points !! (4 * i + 1) = Some p1 ->
  points !! (4 * i + 2) = Some p2 ->
  points !! (4 * i + 3) = Some p3 ->
  (if move st then base = moveTo (p0 !! 0) (p0 !! 1) new_Path
   else path st = Some base) ->
  let path2 := bezierCurveTo (p1 !! 0) (p1 !! 1) (p2 !! 0) (p2 !! 1)
                 (p3 !! 0) (p3 !! 1) base in
  buildBody points i st =
  Ok {| paths := if move_after points i p3 then paths st ++ [path2] else paths st;
        path := Some path2;
        move := move_after points i p3 |}.
Proof.
  intros H0 H1 H2 H3 Hbase path2. unfold buildBody. cbv zeta.
  rewrite !(coord_Some _ _ _ _ H0), !(coord_Some _ _ _ _ H1),
    !(coord_Some _ _ _ _ H2), !(coord_Some _ _ _ _ H3).
  apply lookup_lt_Some in H3 as Hlt.
  assert (Hnext : 4 * i + 4 = length points \/
                  exists nx, 4 * i + 4 <> length points /\ points !! (4 * i + 4) = Some nx).
  { destruct (decide (4 * i + 4 = length points)) as [|Hne]; [by left|right].
    destruct (lookup_lt_is_Some_2 points (4 * i + 4)) as [nx Hnx]; [lia|]. eauto. }
  unfold move_after, readPoint. rewrite H3.
  destruct Hnext as [Heq | (nx & Hne & Hnx)].
  - rewrite <- Heq, Nat.eqb_refl.
    destruct (move st); [subst base | rewrite Hbase]; done.
  - apply Nat.eqb_neq in Hne. rewrite Hne, Hnx.
    destruct (move st); [subst base | rewrite Hbase]; done.
Qed.

Lemma segment_count_snoc (ps : list Path) (p : Path) :
  segment_count (ps ++ [p]) = segment_count ps + length (curves p).
Proof. unfold segment_count. rewrite sum_list_with_app. simpl. lia. Qed.

(** The four points of a segment that lies inside the sequence. *)
Lemma segment_points (points : list Point) (i : nat) :
  4 * i + 3 < length points ->
  exists p0 p1 p2 p3,
    points !! (4 * i) = Some p0 /\ points !! (4 * i + 1) = Some p1 /\
    points !! (4 * i + 2) = Some p2 /\ points !! (4 * i + 3) = Some p3.
Proof.
  intros Hlt.
  destruct (lookup_lt_is_Some_2 points (4 * i)) as [p0 H0]; [lia|].
  destruct (lookup_lt_is_Some_2 points (4 * i + 1)) as [p1 H1]; [lia|].
  destruct (lookup_lt_is_Some_2 points (4 * i + 2)) as [p2 H2]; [lia|].
  destruct (lookup_lt_is_Some_2 points (4 * i + 3)) as [p3 H3]; [lia|].
  eauto 10.
Qed.

(** The invariant of the first loop on a sequence of complete segments:
    every segment consumed so far is in exactly one path, pushed or open. *)
Definition count_inv (points : list Point) (i : nat) (st : BuildState) : Prop :=
  4 * i <= length points /\
  (move st = false -> is_Some (path st)) /\
  segment_count (paths st) + open_segments st = i /\
  (4 * i = length points -> move st = true).

Lemma count_inv_step (points : list Point) (i : nat) (st : BuildState) :
  length points mod 4 = 0 ->
  count_inv points i st -> buildCond points i st = true ->
  i < length points /\
  exists st', buildBody points i st = Ok st' /\ count_inv points (S i) st'.
Proof.
  intros Hmod (Hle & Hpath & Hcount & Hlast) Hc.
  unfold buildCond in Hc. apply Nat.ltb_lt in Hc.
  assert (Hin : 4 * i + 3 < length points).
  { pose proof (Nat.div_mod_eq (length points) 4). lia. }
  split; [lia|].
  destruct (segment_points points i Hin) as (p0 & p1 & p2 & p3 & H0 & H1 & H2 & H3).
  assert (Hbase : exists base,
    (if move st then base = moveTo (p0 !! 0) (p0 !! 1) new_Path
     else path st = Some base) /\
    length (curves base) = open_segments st).
  { unfold open_segments. destruct (move st) eqn:Hm.
    - eexists; split; [reflexivity|done].
    - destruct (Hpath eq_refl) as [p Hp]. exists p. by rewrite Hp. }
  destruct Hbase as (base & Hbase & Hlen).
  eexists; split; [apply (buildBody_segment points i st p0 p1 p2 p3 base); done|].
  unfold count_inv, open_segments; simpl.
  split; [lia|]. split; [eauto|]. split.
  - destruct (move_after points i p3); simpl.
    + rewrite segment_count_snoc. simpl. rewrite length_app. simpl. lia.
    + rewrite length_app. simpl. lia.
  - intros Heq. unfold move_after.
    replace (4 * i + 4) with (length points) by lia. by rewrite Nat.eqb_refl.
Qed.

(** The first loop returns on complete segments, with every segment counted. *)
Lemma buildPaths_returns (points : list Point) :
  length points mod 4 = 0 ->
  exists ps, buildPaths points = Ok ps /\ segment_count ps = length points / 4.
Proof.
  intros Hmod. unfold buildPaths.
  destruct (for_loop_inv (count_inv points) (buildCond points) (buildBody points)
              (length points) (fun i s Hi Hc => count_inv_step points i s Hmod Hi Hc)
              (S (length points)) 0 buildInit) as (k & st & Hrun & Hinv & Hc).
  { unfold count_inv, open_segments; simpl. repeat split; eauto; lia. }
  { lia. }
  destruct Hinv as (Hle & _ & Hcount & Hlast).
  unfold buildCond in Hc. apply Nat.ltb_ge in Hc.
  assert (Hk : 4 * k = length points) by lia.
  exists (paths st). split; [by rewrite Hrun|].
  unfold open_segments in Hcount. rewrite (Hlast Hk) in Hcount.
  rewrite <- Hk, Nat.mul_comm, Nat.div_mul by done. lia.
Qed.

(** C7: on a sequence whose length is a multiple of 4 the path builder
    returns, and the returned paths hold [length / 4] segments in total; the
    empty sequence gives no path and four points give one path of one
    segment. *)
Theorem buildPaths_segment_count (points : list Point) :
  length points mod 4 = 0 ->
  exists ps,
    buildPaths points = Ok ps /\
    segment_count ps = length points / 4 /\
    (points = [] -> ps = []) /\
    (length points = 4 -> exists p, ps = [p] /\ length (curves p) = 1).
Proof.
  intros Hmod. destruct (buildPaths_returns points Hmod) as (ps & Hrun & Hcount).
  exists ps. split; [done|]. split; [done|]. split.
  - intros ->. simpl in Hrun. by injection Hrun as <-.
  - intros Hfour.
    destruct points as [|p0 [|p1 [|p2 [|p3 [|? ?]]]]]; simpl in Hfour; try lia.
    simpl in Hrun. injection Hrun as <-. simpl. eauto.
Qed.

(** One iteration over a trailing group of one, two or three points: the
    read of the first missing point throws. *)
Lemma buildBody_partial (points : list Point) (i : nat) (st : BuildState) :
  4 * i < length points -> length points <= 4 * i + 3 ->
  (move st = false -> is_Some (path st)) ->
  buildBody points i st = Throw (TypeError "points" (length points)).
Proof.
  intros Hlo Hhi Hpath.
  destruct (lookup_lt_is_Some_2 points (4 * i)) as [p0 H0]; [lia|].
  unfold buildBody; cbv zeta. rewrite !(coord_Some _ _ _ _ H0).
  assert (Hthrow : forall (k c : nat), k = length points ->
            coord points k c = Throw (TypeError "points" (length points))).
  { intros k c ->. apply coord_None, lookup_ge_None. lia. }
  destruct (points !! (4 * i + 1)) as [p1|] eqn:H1.
  2:{ apply lookup_ge_None in H1.
      rewrite (Hthrow (4 * i + 1) 0) by lia.
      destruct (move st); [done|]. by destruct (Hpath eq_refl) as [p ->]. }
  rewrite !(coord_Some _ _ _ _ H1). apply lookup_lt_Some in H1.
  destruct (points !! (4 * i + 2)) as [p2|] eqn:H2.
  2:{ apply lookup_ge_None in H2.
      rewrite (Hthrow (4 * i + 2) 0) by lia.
      destruct (move st); [done|]. by destruct (Hpath eq_refl) as [p ->]. }
  rewrite !(coord_Some _ _ _ _ H2). apply lookup_lt_Some in H2.
  rewrite (Hthrow (4 * i + 3) 0) by lia.
  destruct (move st); [done|]. by destruct (Hpath eq_refl) as [p ->].
Qed.

(** The first loop throws on a trailing partial group. *)
Lemma buildPaths_throws (points : list Point) :
  length points mod 4 <> 0 ->
  buildPaths points = Throw (TypeError "points" (length points)).
Proof.
  intros Hmod.
  unfold buildPaths.
  rewrite (for_loop_throws
             (fun i st => 4 * i <= length points /\ (move st = false -> is_Some (path st)))
             (buildCond points) (buildBody points) (length points)
             (TypeError "points" (length points))); [done| |simpl; split; [lia|done]|lia].
  intros i st (Hle & Hpath).
  assert (Hlt : 4 * i < length points).
  { destruct (decide (4 * i = length points)) as [Heq|]; [|lia].
    exfalso. apply Hmod. rewrite <- Heq, Nat.mul_comm. by apply Nat.Div0.mod_mul. }
  split; [by apply Nat.ltb_lt|].
  destruct (decide (length points <= 4 * i + 3)) as [Hhi|Hhi].
  - left. by apply buildBody_partial.
  - right. split; [lia|].
    destruct (segment_points points i ltac:(lia)) as (p0 & p1 & p2 & p3 & H0 & H1 & H2 & H3).
    assert (Hbase : exists base,
      if move st then base = moveTo (p0 !! 0) (p0 !! 1) new_Path
      else path st = Some base).
    { destruct (move st); [eauto|]. destruct (Hpath eq_refl) as [p Hp]; eauto. }
    destruct Hbase as (base & Hbase).
    eexists; split; [apply (buildBody_segment points i st p0 p1 p2 p3 base); done|].
    simpl. split; [lia|eauto].
Qed.

(** C2 (as amended): on a sequence whose length is not a multiple of 4 the
    path builder returns no path list: it throws the TypeError of a property
    read on [points[points.length]], the first point missing from the trailing
    group, which is a read past the end of the sequence. *)
Theorem buildPaths_partial_group_throws (points : list Point) :
  length points mod 4 <> 0 ->
  buildPaths points = Throw (TypeError "points" (length points)) /\
  points !! length points = None /\
  exn_name (TypeError "points" (length points)) = "TypeError"%string.
Proof.
  intros Hmod. split; [by apply buildPaths_throws|].
  split; [by apply lookup_ge_None|done].
Qed.

Lemma built_from_0 (points : list Point) (p0 : Point) :
  points !! 0 = Some p0 ->
  built_from points 0 (moveTo (p0 !! 0) (p0 !! 1) new_Path).
Proof.
  intros H0. split; [done|]. split; [intros k Hk; lia|].
  intros ps Hps. simpl in Hps. rewrite H0 in Hps. injection Hps as <-. done.
Qed.

Lemma built_from_step (points : list Point) (i : nat) (base : Path)
    (ps p1 p2 p3 : Point) :
  built_from points i base ->
  points !! start_index i = Some ps ->
  points !! (4 * i + 1) = Some p1 ->
  points !! (4 * i + 2) = Some p2 ->
  points !! (4 * i + 3) = Some p3 ->
  built_from points (S i)
    (bezierCurveTo (p1 !! 0) (p1 !! 1) (p2 !! 0) (p2 !! 1) (p3 !! 0) (p3 !! 1) base).
Proof.
  intros (Hlen & Hsegs & Hpen) Hs H1 H2 H3. split; [|split].
  - simpl. rewrite length_app. simpl. lia.
  - intros k Hk. simpl. destruct (decide (k < i)) as [Hlt|Hge].
    + destruct (Hsegs k Hlt) as (c & Hc & Hseg). exists c.
      split; [|done]. rewrite lookup_app_l by lia. done.
    + assert (k = i) as -> by lia.
      eexists. split.
      { rewrite lookup_app_r by lia. rewrite Hlen, Nat.sub_diag. reflexivity. }
      exists ps, p1, p2, p3. simpl. rewrite (Hpen ps Hs). done.
  - intros ps' Hps'. change (start_index (S i)) with (4 * i + 3) in Hps'.
    rewrite H3 in Hps'. injection Hps' as <-. done.
Qed.

Lemma chain_inv_step (points : list Point) (i : nat) (st : BuildState) :
  length points mod 4 = 0 -> chained points ->
  chain_inv points i st -> buildCond points i st = true ->
  i < length points /\
  exists st', buildBody points i st = Ok st' /\ chain_inv points (S i) st'.
Proof.
  intros Hmod Hchain (Hle & Hinv) Hc.
  unfold buildCond in Hc. apply Nat.ltb_lt in Hc.
  assert (Hin : 4 * i + 3 < length points).
  { pose proof (Nat.div_mod_eq (length points) 4). lia. }
  split; [lia|].
  destruct (segment_points points i Hin) as (p0 & p1 & p2 & p3 & H0 & H1 & H2 & H3).
  assert (Hbase : exists base ps,
    (if move st then base = moveTo (p0 !! 0) (p0 !! 1) new_Path
     else path st = Some base) /\
    built_from points i base /\ points !! start_index i = Some ps /\
    paths st = []).
  { destruct Hinv as [(-> & ->) | (Hpos & p & Hp & Hbuilt & Hcase)].
    - exists (moveTo (p0 !! 0) (p0 !! 1) new_Path), p0. simpl.
      replace (4 * 0) with 0 in H0 by lia.
      split; [done|]. split; [by apply built_from_0|done].
    - destruct Hcase as [(_ & Hm & Hps) | (Heq & _)]; [|lia].
      destruct i as [|i']; [lia|].
      destruct (lookup_lt_is_Some_2 points (start_index (S i'))) as [ps Hs];
        [simpl; lia|].
      exists p, ps. rewrite Hm. done. }
  destruct Hbase as (base & ps & Hbase & Hbuilt & Hs & Hpaths).
  eexists; split; [apply (buildBody_segment points i st p0 p1 p2 p3 base); done|].
  split; [lia|]. right. split; [lia|].
  eexists. simpl. split; [reflexivity|].
  split; [by apply (built_from_step points i base ps)|].
  unfold move_after. destruct (4 * i + 4 =? length points)%nat eqn:Hlast.
  - apply Nat.eqb_eq in Hlast. right. rewrite Hpaths. split; [lia|done].
  - apply Nat.eqb_neq in Hlast. left.
    destruct (lookup_lt_is_Some_2 points (4 * i + 4)) as [nx Hnx]; [lia|].
    rewrite Hnx, (Hchain i p3 nx H3 Hnx). simpl. split; [lia|done].
Qed.

(** The first loop on a non-empty chained sequence of complete segments. *)
Lemma buildPaths_chained_run (points : list Point) :
  points <> [] ->
  length points mod 4 = 0 ->
  chained points ->
  exists p,
    buildPaths points = Ok [p] /\
    length (curves p) = length points / 4 /\
    (forall k, k < length points / 4 ->
       exists c, curves p !! k = Some c /\ is_segment points k c).
Proof.
  intros Hne Hmod Hchain. unfold buildPaths.
  destruct (for_loop_inv (chain_inv points) (buildCond points) (buildBody points)
              (length points)
              (fun i s Hi Hc => chain_inv_step points i s Hmod Hchain Hi Hc)
              (S (length points)) 0 buildInit) as (k & st & Hrun & Hinv & Hc).
  { split; [lia|]. by left. }
  { lia. }
  unfold buildCond in Hc. apply Nat.ltb_ge in Hc.
  destruct Hinv as (Hle & [(-> & _) | (Hpos & p & Hp & Hbuilt & Hcase)]).
  - destruct points; [done|simpl in Hc; lia].
  - destruct Hcase as [(Hlt & _) | (Heq & Hm & Hps)]; [lia|].
    assert (Hk : length points / 4 = k).
    { rewrite <- Heq, Nat.mul_comm, Nat.div_mul by done. done. }
    destruct Hbuilt as (Hlen & Hsegs & _).
    exists p. rewrite Hrun, Hk. simpl. rewrite Hps. done.
Qed.

(** C9 (as amended): a non-empty sequence of complete segments in which every
    segment end is close to the next segment start is built into exactly one
    path that holds all the segments in order, whatever the relation between
    the last end point and the first start point. *)
Theorem buildPaths_chained_single_path (points : list Point) :
  points <> [] ->
  length points mod 4 = 0 ->
  chained points ->
  exists p,
    buildPaths points = Ok [p] /\
    length (curves p) = length points / 4 /\
    (forall k, k < length points / 4 ->
       exists c, curves p !! k = Some c /\ is_segment points k c).
Proof.
  intros Hne Hmod Hchain. by apply buildPaths_chained_run.
Qed.

(** ** Classification *)

Lemma readPath_ok (ps : list Path) (k : nat) :
  k < length ps -> exists p, readPath ps k = Ok p /\ ps !! k = Some p.
Proof.
  intros Hk. destruct (lookup_lt_is_Some_2 ps k Hk) as [p Hp].
  exists p. unfold readPath. by rewrite Hp.
Qed.

Lemma innerBody_ok (ps : list Path) (i : nat) (test_shape : Path) (j : nat)
    (st : InnerState) :
  j < length ps -> exists st', innerBody ps i test_shape j st = Ok st'.
Proof.
  intros Hj. unfold innerBody.
  destruct (bool_decide (i = j) || bool_decide (j ∈ inner_decided st)); [eauto|].
  destruct (readPath_ok ps j Hj) as (p & -> & _). simpl.
  destruct (isPointInsidePolygon _ _); [|eauto].
  destruct (known_shape st); eauto.
Qed.

Lemma outerBody_ok (ps : list Path) (i : nat) (st : ClassifyState) :
  i < length ps -> exists st', outerBody ps i st = Ok st'.
Proof.
  intros Hi. unfold outerBody.
  destruct (bool_decide (i ∈ decided_path_indices st)); [eauto|].
  destruct (readPath_ok ps i Hi) as (p & -> & _). cbn [bind].
  destruct (for_loop_inv (fun _ _ => True) (indexCond ps) (innerBody ps i p) (length ps))
    with (fuel := S (length ps)) (i := 0)
         (s := {| known_shape := None; inner_decided := decided_path_indices st |})
    as (k & inner & -> & _); [|done|lia|cbn [bind]; eauto].
  intros j s _ Hc. unfold indexCond in Hc. apply Nat.ltb_lt in Hc.
  split; [done|]. destruct (innerBody_ok ps i p j s Hc) as [s' Hs']. eauto.
Qed.

(** The classifier returns on every list of paths. *)
Lemma classify_ok (ps : list Path) : exists shs, classify ps = Ok shs.
Proof.
  unfold classify.
  destruct (for_loop_inv (fun _ _ => True) (indexCond ps) (outerBody ps) (length ps))
    with (fuel := S (length ps)) (i := 0)
         (s := {| shapes_acc := []; decided_path_indices := ∅ |})
    as (k & st & -> & _); [|done|lia|cbn [bind]].
  { intros i s _ Hc. unfold indexCond in Hc. apply Nat.ltb_lt in Hc.
    split; [done|]. destruct (outerBody_ok ps i s Hc) as [s' Hs']. eauto. }
  destruct (for_loop_inv (fun _ _ => True) (restCond ps) (restBody ps) (length ps))
    with (fuel := S (length ps)) (i := 0) (s := st)
    as (k' & st' & -> & _); [|done|lia|cbn [bind]; eauto].
  intros i s _ Hc. unfold restCond in Hc. apply andb_true_iff in Hc as [Hc _].
  apply Nat.ltb_lt in Hc. split; [done|].
  unfold restBody. destruct (readPath_ok ps i Hc) as (p & -> & _). simpl. eauto.
Qed.

(** [computeShapes] returns on every sequence of complete segments. *)
Lemma computeShapes_ok (points : list Point) :
  length points mod 4 = 0 -> exists shs, computeShapes points = Ok shs.
Proof.
  intros Hmod. unfold computeShapes.
  destruct (buildPaths_returns points Hmod) as (ps & -> & _). simpl.
  apply classify_ok.
Qed.

(** [computeShapes] throws on every other sequence, so it never runs out of
    fuel. *)
Lemma computeShapes_throws (points : list Point) :
  length points mod 4 <> 0 ->
  computeShapes points = Throw (TypeError "points" (length points)).
Proof.
  intros Hmod. unfold computeShapes. by rewrite buildPaths_throws.
Qed.

Lemma computeShapes_terminates (points : list Point) :
  computeShapes points <> OutOfFuel.
Proof.
  destruct (decide (length points mod 4 = 0)) as [Hmod|Hmod].
  - destruct (computeShapes_ok points Hmod) as [shs ->]. done.
  - by rewrite (computeShapes_throws points Hmod).
Qed.

(** C8: two paths, the polygon of [A] containing the first sampled point of
    [B] and the polygon of [B] not containing the first sampled point of [A],
    classify, in either order, into exactly one shape whose outer curves are
    those of [A] and whose single hole is [B]. *)
Theorem classify_two_paths_one_hole (A B : Path) (ps : list Path) :
  ps = [A; B] \/ ps = [B; A] ->
  isPointInsidePolygon (getPoint B 0%Q) (getPoints A) = true ->
  isPointInsidePolygon (getPoint A 0%Q) (getPoints B) = false ->
  exists s,
    classify ps = Ok [s] /\ curves (outline s) = curves A /\ holes s = [B].
Proof.
  intros [-> | ->] HB HA; eexists.
  - vm_compute. rewrite HB. vm_compute. split; [reflexivity|]. split; reflexivity.
  - vm_compute. rewrite HA. vm_compute. rewrite HB. vm_compute.
    split; [reflexivity|]. split; reflexivity.
Qed.

(** C1 (the defect): the trailing loop stops at the first decided index.  With
    three paths, the first of which contains the second, the third path is in
    no shape of the result: neither an outer boundary, nor a hole, nor a
    trivial shape. *)
Theorem classify_drops_path_after_decided (A B C : Path) :
  isPointInsidePolygon (getPoint B 0%Q) (getPoints A) = true ->
  isPointInsidePolygon (getPoint C 0%Q) (getPoints A) = false ->
  exists s,
    classify [A; B; C] = Ok [s] /\ curves (outline s) = curves A /\ holes s = [B].
Proof.
  intros HB HC. eexists.
  vm_compute. rewrite HB. vm_compute. rewrite HC. vm_compute.
  split; [reflexivity|]. split; reflexivity.
Qed.

(** ** The update protocol *)


(** [update] without redraw: the style object is merged in place and both
    materials are refreshed from it; nothing else is written. *)
Lemma update_no_redraw_eq (this : Mobject) (points : list Point)
    (style_arg : StyleArg.t) (σ : Store) (s : Style) :
  styles σ !! style this = Some s ->
  update this points style_arg false σ =
  (Ok {| mobjectId := mobjectId this; style := style this; shapes := shapes this;
         fillMesh := {| geometry := geometry (fillMesh this);
                        material := fill_material_of (assign_fields s style_arg) |};
         strokeMesh := {| geometry := geometry (strokeMesh this);
                          material := stroke_material_of (assign_fields s style_arg) |} |},
   {| styles := <[ style this := assign_fields s style_arg ]> (styles σ);
      geometries := geometries σ |}).
Proof.
  intros Hs.
  unfold update, updateFillMaterial, updateStrokeMaterial, Object_assign,
    read_style, bind_M, ret.
  simpl. rewrite Hs. simpl. rewrite lookup_insert_eq. simpl.
  rewrite lookup_insert_eq. done.
Qed.

(** [update] with redraw, on an entity whose references are bound and on
    points that [computeShapes] accepts: the store and the entity it leaves. *)
Lemma update_redraw_eq (this : Mobject) (points : list Point)
    (style_arg : StyleArg.t) (σ : Store) (s : Style) (bf bs : BufferGeometry)
    (shs : list Shape) :
  styles σ !! style this = Some s ->
  geometries σ !! geometry (fillMesh this) = Some bf ->
  geometries σ !! geometry (strokeMesh this) = Some bs ->
  geometry (fillMesh this) <> geometry (strokeMesh this) ->
  computeShapes points = Ok shs ->
  skips_stroke s style_arg = true \/ shs <> [] ->
  let gs1 :=
    if skips_fill s style_arg then geometries σ
    else <[ geometry (fillMesh this) :=
              {| content := fill_update (content bf) shs; disposed := disposed bf |} ]>
           (geometries σ) in
  let gs2 :=
    <[ geometry (strokeMesh this) := {| content := content bs; disposed := true |} ]> gs1 in
  let r := fresh (dom gs2) in
  update this points style_arg true σ =
  (Ok {| mobjectId := mobjectId this; style := style this; shapes := shs;
         fillMesh := {| geometry := geometry (fillMesh this);
                        material := fill_material_of (assign_fields s style_arg) |};
         strokeMesh :=
           {| geometry := if skips_stroke s style_arg
                          then geometry (strokeMesh this) else r;
              material := stroke_material_of (assign_fields s style_arg) |} |},
   {| styles := <[ style this := assign_fields s style_arg ]> (styles σ);
      geometries :=
        if skips_stroke s style_arg then gs1
        else <[ r := {| content := mergeBufferGeometries (map createMeshLineGeometries shs);
                        disposed := false |} ]> gs2 |}).
Proof.
  intros Hs Hbf Hbs Hne Hshs Hstroke gs1 gs2 r. subst r gs2 gs1.
  assert (Hmerge : skips_stroke s style_arg = false ->
            mergeBufferGeometries_call (map createMeshLineGeometries shs)
            = Ok (mergeBufferGeometries (map createMeshLineGeometries shs))).
  { intros Hf. destruct Hstroke as [Ht|Hshs']; [congruence|]. by destruct shs. }
  unfold skips_stroke in *.
  unfold update, updateFillMaterial, updateStrokeMaterial, Object_assign,
    updateFillGeometry, computeStrokeGeometry, geometry_update, geometry_dispose,
    new_geometry, read_style, lift, bind_M, ret, skips_fill.
  simpl. rewrite Hshs, Hs.
  destruct (strict_eq_0 (Some (fillOpacity s)) && strict_eq_0 (StyleArg.fillOpacity style_arg));
    simpl; rewrite ?Hbf; simpl; rewrite Hs;
    destruct (strict_eq_0 (Some (strokeOpacity s))
              && strict_eq_0 (StyleArg.strokeOpacity style_arg));
    simpl; rewrite ?lookup_insert_ne by done; rewrite ?Hbs; simpl;
    rewrite ?(Hmerge eq_refl); simpl;
    rewrite Hs; simpl; rewrite lookup_insert_eq; simpl; rewrite lookup_insert_eq; done.
Qed.

(** [update] with redraw when [computeShapes] returns no shape and the stroke
    geometry is not skipped: the old stroke geometry has been disposed when
    the merge of the empty array throws; the style is not merged and no
    geometry is allocated. *)
Lemma update_redraw_merge_throws (this : Mobject) (points : list Point)
    (style_arg : StyleArg.t) (σ : Store) (s : Style) (bf bs : BufferGeometry) :
  styles σ !! style this = Some s ->
  geometries σ !! geometry (fillMesh this) = Some bf ->
  geometries σ !! geometry (strokeMesh this) = Some bs ->
  geometry (fillMesh this) <> geometry (strokeMesh this) ->
  computeShapes points = Ok [] ->
  skips_stroke s style_arg = false ->
  update this points style_arg true σ =
  (Throw (TypeError "geometries" 0),
   {| styles := styles σ;
      geometries :=
        <[ geometry (strokeMesh this) := {| content := content bs; disposed := true |} ]>
          (if skips_fill s style_arg then geometries σ
           else <[ geometry (fillMesh this) :=
                     {| content := fill_update (content bf) []; disposed := disposed bf |} ]>
                  (geometries σ)) |}).
Proof.
  intros Hs Hbf Hbs Hne Hshs Hstroke. unfold skips_stroke in Hstroke.
  unfold update, updateFillMaterial, updateStrokeMaterial, Object_assign,
    updateFillGeometry, computeStrokeGeometry, geometry_update, geometry_dispose,
    new_geometry, read_style, lift, bind_M, ret, skips_fill.
  simpl. rewrite Hshs, Hs.
  destruct (strict_eq_0 (Some (fillOpacity s)) && strict_eq_0 (StyleArg.fillOpacity style_arg));
    simpl; rewrite ?Hbf; simpl; rewrite Hs, Hstroke;
    simpl; rewrite ?lookup_insert_ne by done; rewrite ?Hbs; done.
Qed.

(** Whenever [update] returns, it has merged the argument into the style
    object the entity refers to, kept the reference, and refreshed both
    materials from the merged object. *)
Lemma update_returns_inv (this this' : Mobject) (points : list Point)
    (style_arg : StyleArg.t) (needsRedraw : bool) (σ σ' : Store) (s : Style) :
  styles σ !! style this = Some s ->
  update this points style_arg needsRedraw σ = (Ok this', σ') ->
  style this' = style this /\
  styles σ' = <[ style this := assign_fields s style_arg ]> (styles σ) /\
  material (fillMesh this') = fill_material_of (assign_fields s style_arg) /\
  material (strokeMesh this') = stroke_material_of (assign_fields s style_arg).
Proof.
  intros Hs. destruct needsRedraw.
  - unfold update, updateFillMaterial, updateStrokeMaterial, Object_assign,
      updateFillGeometry, computeStrokeGeometry, geometry_update, geometry_dispose,
      new_geometry, read_style, lift, bind_M, ret.
    simpl. destruct (computeShapes points) as [shs| |]; [|done|done].
    rewrite Hs.
    destruct (negb (strict_eq_0 (Some (fillOpacity s))
                    && strict_eq_0 (StyleArg.fillOpacity style_arg)));
      [destruct (geometries σ !! geometry (fillMesh this)); [|done]|];
      simpl; rewrite Hs;
      (destruct (negb (strict_eq_0 (Some (strokeOpacity s))
                       && strict_eq_0 (StyleArg.strokeOpacity style_arg)));
       [match goal with
        | |- context [match ?m !! geometry (strokeMesh this) with _ => _ end] =>
            destruct (m !! geometry (strokeMesh this)); [|done]
        end;
        destruct (mergeBufferGeometries_call (map createMeshLineGeometries shs));
          [|done|done]
       |]);
      simpl; rewrite Hs; simpl; rewrite lookup_insert_eq; simpl;
      rewrite lookup_insert_eq; intros [= <- <-]; done.
  - rewrite (update_no_redraw_eq this points style_arg σ s Hs).
    intros [= <- <-]. done.
Qed.

(** Whenever the constructor returns, the entity refers to the module-level
    style object, into which the argument has been merged. *)
Lemma constructor_returns_inv (id : nat) (points : list Point)
    (style_arg : StyleArg.t) (σ σ' : Store) (this : Mobject) :
  constructor id points style_arg σ = (Ok this, σ') ->
  style this = DEFAULT_STYLE /\
  exists d, styles σ !! DEFAULT_STYLE = Some d /\
    styles σ' = <[ DEFAULT_STYLE := assign_fields d style_arg ]> (styles σ) /\
    material (fillMesh this) = fill_material_of (assign_fields d style_arg) /\
    material (strokeMesh this) = stroke_material_of (assign_fields d style_arg).
Proof.
  unfold constructor, computeFillGeometry, computeFillMaterial,
    computeStrokeGeometry, computeStrokeMaterial, Object_assign, new_geometry,
    read_style, lift, bind_M, ret.
  destruct (styles σ !! DEFAULT_STYLE) as [d|]; [|done].
  destruct (computeShapes points) as [shs| |]; [|done|done].
  run_store.
  destruct (mergeBufferGeometries_call (map createMeshLineGeometries shs));
    [|done|done].
  run_store. intros [= <- <-]. split; [done|]. exists d. done.
Qed.

(** The constructor on a store in which [DEFAULT_STYLE] is bound and on points
    that [computeShapes] accepts: the store and the entity it leaves. *)
Lemma constructor_eq (id : nat) (points : list Point) (style_arg : StyleArg.t)
    (σ : Store) (d : Style) (shs : list Shape) :
  styles σ !! DEFAULT_STYLE = Some d ->
  computeShapes points = Ok shs ->
  shs <> [] ->
  let s := assign_fields d style_arg in
  let rf := fresh (dom (geometries σ)) in
  let gs1 := <[ rf := {| content := MobjectFillBufferGeometry shs 11;
                         disposed := false |} ]> (geometries σ) in
  let rs := fresh (dom gs1) in
  constructor id points style_arg σ =
  (Ok {| mobjectId := id; style := DEFAULT_STYLE; shapes := shs;
         fillMesh := {| geometry := rf; material := fill_material_of s |};
         strokeMesh := {| geometry := rs; material := stroke_material_of s |} |},
   {| styles := <[ DEFAULT_STYLE := s ]> (styles σ);
      geometries :=
        <[ rs := {| content := mergeBufferGeometries (map createMeshLineGeometries shs);
                    disposed := false |} ]> gs1 |}).
Proof.
  intros Hd Hshs Hne s rf gs1 rs. subst rs gs1 rf s.
  assert (Hmerge : mergeBufferGeometries_call (map createMeshLineGeometries shs)
                   = Ok (mergeBufferGeometries (map createMeshLineGeometries shs)))
    by (by destruct shs).
  unfold constructor, computeFillGeometry, computeFillMaterial,
    computeStrokeGeometry, computeStrokeMaterial, Object_assign, new_geometry,
    read_style, lift, bind_M, ret.
  rewrite Hd, Hshs. run_store. rewrite Hmerge. run_store. done.
Qed.

(** The constructor when [computeShapes] returns no shape: the merge of the
    empty array throws after the style was merged and the fill geometry
    allocated. *)
Lemma constructor_merge_throws (id : nat) (points : list Point)
    (style_arg : StyleArg.t) (σ : Store) (d : Style) :
  styles σ !! DEFAULT_STYLE = Some d ->
  computeShapes points = Ok [] ->
  fst (constructor id points style_arg σ) = Throw (TypeError "geometries" 0).
Proof.
  intros Hd Hshs.
  unfold constructor, computeFillGeometry, computeFillMaterial,
    computeStrokeGeometry, computeStrokeMaterial, Object_assign, new_geometry,
    read_style, lift, bind_M, ret.
  rewrite Hd, Hshs. run_store. done.
Qed.

(** A constructed entity holds bound references and two distinct geometries. *)
Lemma constructor_entity_ok (id : nat) (points : list Point)
    (style_arg : StyleArg.t) (σ σ' : Store) (this : Mobject) :
  constructor id points style_arg σ = (Ok this, σ') -> entity_ok σ' this.
Proof.
  intros Hc.
  destruct (constructor_returns_inv _ _ _ _ _ _ Hc) as (_ & d & Hd & _).
  destruct (computeShapes points) as [shs| |] eqn:Hshs.
  2,3: revert Hc; unfold constructor, Object_assign, lift, bind_M;
       rewrite Hd, Hshs; done.
  assert (Hshapes : shs <> []).
  { intros ->. pose proof (constructor_merge_throws id points style_arg σ d Hd Hshs) as Ht.
    by rewrite Hc in Ht. }
  rewrite (constructor_eq id points style_arg σ d shs Hd Hshs Hshapes) in Hc.
  injection Hc as <- <-. unfold entity_ok; simpl.
  set (rf := fresh (dom (geometries σ))).
  set (gs1 := <[ rf := _ ]> (geometries σ)).
  assert (Hne : rf <> fresh (dom gs1)).
  { intros Heq. apply (is_fresh (dom gs1)). rewrite <- Heq.
    apply elem_of_dom. subst gs1. rewrite lookup_insert_eq. eauto. }
  rewrite lookup_insert_eq, (lookup_insert_ne _ _ rf) by done.
  subst gs1. rewrite !lookup_insert_eq. eauto.
Qed.

(** The reference of a geometry allocated after [k] was rewritten in [gs] is
    neither [k] nor any reference bound in [gs]. *)
Lemma fresh_after_insert (gs : gmap ref BufferGeometry) (k : ref) (b : BufferGeometry) :
  let r := fresh (dom (<[ k := b ]> gs)) in
  r <> k /\ gs !! r = None /\ (forall k', is_Some (gs !! k') -> r <> k').
Proof.
  intros r.
  assert (Hfresh : r ∉ dom (<[ k := b ]> gs)) by apply is_fresh.
  rewrite dom_insert_L in Hfresh.
  split; [set_solver|]. split.
  - apply not_elem_of_dom. set_solver.
  - intros k' Hk' ->. apply elem_of_dom in Hk'. set_solver.
Qed.

(** C6: [update] with [needsRedraw = false] returns without touching any
    geometry: the store of buffers is the same, the entity holds the same two
    geometry references and the same shapes, and the materials carry the
    colour, opacity and line width ([strokeWidth / 100]) of the merged style. *)
Theorem update_without_redraw_keeps_geometry (this : Mobject) (points : list Point)
    (style_arg : StyleArg.t) (σ : Store) (s : Style) :
  styles σ !! style this = Some s ->
  exists this' σ',
    update this points style_arg false σ = (Ok this', σ') /\
    geometries σ' = geometries σ /\
    geometry (fillMesh this') = geometry (fillMesh this) /\
    geometry (strokeMesh this') = geometry (strokeMesh this) /\
    shapes this' = shapes this /\
    mobjectId this' = mobjectId this /\
    let s' := assign_fields s style_arg in
    color (material (fillMesh this')) = fillColor s' /\
    opacity (material (fillMesh this')) = fillOpacity s' /\
    line_color (material (strokeMesh this')) = strokeColor s' /\
    line_opacity (material (strokeMesh this')) = strokeOpacity s' /\
    lineWidth (material (strokeMesh this')) = (strokeWidth s' / 100)%Q.
Proof.
  intros Hs. eexists _, _.
  split; [apply (update_no_redraw_eq this points style_arg σ s Hs)|].
  simpl. done.
Qed.

(** X9: [update] with redraw on points that are not complete segments throws
    the TypeError of [computeShapes] before it writes anything: the store,
    style object included, is as it was. *)
Lemma update_redraw_throws (this : Mobject) (points : list Point)
    (style_arg : StyleArg.t) (σ : Store) :
  length points mod 4 <> 0 ->
  update this points style_arg true σ
  = (Throw (TypeError "points" (length points)), σ).
Proof.
  intros Hmod. unfold update, lift, bind_M.
  by rewrite (computeShapes_throws points Hmod).
Qed.

(** X11: [update] keeps the entity well formed: whenever it returns, the
    style reference and both geometry references of the entity are bound in
    the new store and the fill and stroke geometries are two objects. *)
Lemma update_entity_ok (this this' : Mobject) (points : list Point)
    (style_arg : StyleArg.t) (needsRedraw : bool) (σ σ' : Store) :
  entity_ok σ this ->
  update this points style_arg needsRedraw σ = (Ok this', σ') ->
  entity_ok σ' this'.
Proof.
  intros ([s Hs] & [bf Hbf] & [bs Hbs] & Hne) Hu. destruct needsRedraw.
  - destruct (computeShapes points) as [shs| |] eqn:Hshs.
    2,3: revert Hu; unfold update, lift, bind_M; rewrite Hshs; done.
    assert (Hcase : skips_stroke s style_arg = true \/ shs <> []).
    { destruct (skips_stroke s style_arg) eqn:HS; [by left|]. right. intros ->.
      by rewrite (update_redraw_merge_throws this points style_arg σ s bf bs) in Hu. }
    rewrite (update_redraw_eq this points style_arg σ s bf bs shs) in Hu by done.
    injection Hu as <- <-. unfold entity_ok; simpl.
    split; [rewrite lookup_insert_eq; eauto|].
    match goal with
    | |- context [fresh (dom (<[ ?k := ?b ]> ?gs))] =>
        destruct (fresh_after_insert gs k b) as (Hr1 & Hr2 & Hr3)
    end.
    assert (Hfill : forall b', is_Some (
      (if skips_fill s style_arg then geometries σ
       else <[ geometry (fillMesh this) := b' ]> (geometries σ))
      !! geometry (fillMesh this))).
    { intros b'. destruct (skips_fill s style_arg);
        [rewrite Hbf | rewrite lookup_insert_eq]; eauto. }
    destruct (skips_stroke s style_arg).
    + split; [apply Hfill|]. split; [|done].
      destruct (skips_fill s style_arg); [rewrite Hbs; eauto|].
      rewrite lookup_insert_ne by done. rewrite Hbs; eauto.
    + split.
      { rewrite lookup_insert_ne by (apply Hr3, Hfill).
        rewrite lookup_insert_ne by congruence. apply Hfill. }
      split; [rewrite lookup_insert_eq; eauto|].
      intros Heq. symmetry in Heq. revert Heq. apply Hr3, Hfill.
  - rewrite (update_no_redraw_eq this points style_arg σ s Hs) in Hu.
    injection Hu as <- <-. unfold entity_ok; simpl.
    rewrite lookup_insert_eq, Hbf, Hbs. eauto.
Qed.

(** C4: every entity the constructor returns refers to the one module-level
    style object, so two entities hold the same reference; [update] keeps the
    reference and writes its argument into that object, and the next material
    refresh of the other entity reads the merged values. *)
Theorem constructed_entities_share_style
    (id1 id2 : nat) (points1 points2 points : list Point)
    (style1 style2 style_arg : StyleArg.t) (needsRedraw : bool)
    (σ1 σ1' σ2 σ2' σ σ' : Store) (m1 m2 m1' : Mobject) (s : Style) :
  constructor id1 points1 style1 σ1 = (Ok m1, σ1') ->
  constructor id2 points2 style2 σ2 = (Ok m2, σ2') ->
  styles σ !! DEFAULT_STYLE = Some s ->
  update m1 points style_arg needsRedraw σ = (Ok m1', σ') ->
  style m1 = DEFAULT_STYLE /\
  style m2 = DEFAULT_STYLE /\
  style m1' = DEFAULT_STYLE /\
  styles σ' !! style m2 = Some (assign_fields s style_arg) /\
  updateFillMaterial m2 σ' =
    (Ok (set_fill_material (fill_material_of (assign_fields s style_arg)) m2), σ') /\
  updateStrokeMaterial m2 σ' =
    (Ok (set_stroke_material (stroke_material_of (assign_fields s style_arg)) m2), σ').
Proof.
  intros Hc1 Hc2 Hs Hu.
  destruct (constructor_returns_inv _ _ _ _ _ _ Hc1) as (Hm1 & _).
  destruct (constructor_returns_inv _ _ _ _ _ _ Hc2) as (Hm2 & _).
  rewrite <- Hm1 in Hs.
  destruct (update_returns_inv _ _ _ _ _ _ _ _ Hs Hu) as (Hm1' & Hst & _).
  assert (Hread : styles σ' !! style m2 = Some (assign_fields s style_arg)).
  { rewrite Hst, Hm2, Hm1. apply lookup_insert_eq. }
  split; [done|]. split; [done|]. split; [congruence|]. split; [done|].
  unfold updateFillMaterial, updateStrokeMaterial, read_style, bind_M, ret.
  rewrite Hread. done.
Qed.

(** C3 (the defect): the constructor merges its argument into the module-level
    object itself.  After one construction with [fillOpacity: 0], a second
    construction with an empty style yields an entity whose fill opacity is 0,
    where the defaults say 1. *)
Theorem constructor_overwrites_defaults :
  exists m1 σ1 m2 σ2 s2,
    constructor 1 (Fixture.segment 0 0 1 1)
      {| StyleArg.strokeColor := None; StyleArg.strokeOpacity := None;
         StyleArg.fillColor := None; StyleArg.fillOpacity := Some 0%Q;
         StyleArg.strokeWidth := None |} module_loaded = (Ok m1, σ1) /\
    constructor 2 (Fixture.segment 0 0 1 1) StyleArg.empty σ1 = (Ok m2, σ2) /\
    styles σ2 !! style m2 = Some s2 /\
    fillOpacity s2 = 0%Q /\
    opacity (material (fillMesh m2)) = 0%Q /\
    fillOpacity (assign_fields DEFAULT_STYLE_literal StyleArg.empty) = 1%Q.
Proof.
  eexists _, _, _, _, _.
  split; [vm_compute; reflexivity|].
  split; [vm_compute; reflexivity|].
  split; [vm_compute; reflexivity|].
  vm_compute. done.
Qed.

(** ** Path building: order, splits and non-empty paths *)

Lemma move_after_joint_open (points : list Point) (i : nat) (p3 : Point) :
  points !! (4 * i + 3) = Some p3 ->
  move_after points i p3 = joint_open points i.
Proof using Type.
  intros H3. unfold move_after, joint_open. rewrite H3.
  destruct (4 * i + 4 =? length points)%nat eqn:Hlast; [|done].
  apply Nat.eqb_eq in Hlast.
  rewrite (lookup_ge_None_2 points (4 * i + 4)) by lia. done.
Qed.

Lemma build_inv_step (points : list Point) (i : nat) (st : BuildState) :
  length points mod 4 = 0 ->
  build_inv points i st -> buildCond points i st = true ->
  i < length points /\
  exists st', buildBody points i st = Ok st' /\ build_inv points (S i) st'.
Proof using Type.
  intros Hmod (Hle & Hne & Hcnt & Hlen & Hsegs & Hmove & Hopen) Hc.
  unfold buildCond in Hc. apply Nat.ltb_lt in Hc.
  assert (Hin : 4 * i + 3 < length points).
  { pose proof (Nat.div_mod_eq (length points) 4). lia. }
  split; [lia|].
  destruct (segment_points points i Hin) as (p0 & p1 & p2 & p3 & H0 & H1 & H2 & H3).
  assert (Hbase : exists base ps,
    (if move st then base = moveTo (p0 !! 0) (p0 !! 1) new_Path
     else path st = Some base) /\
    all_curves st = concat (map curves (paths st)) ++ curves base /\
    points !! pen_index points i = Some ps /\ currentPoint base = vec2 ps).
  { unfold all_curves, pen_index. rewrite <- Hmove. destruct (move st) eqn:Hm.
    - exists (moveTo (p0 !! 0) (p0 !! 1) new_Path), p0. done.
    - destruct (Hopen eq_refl) as (p & Hp & _ & Hpen).
      assert (Hi : i <> 0) by (intros ->; simpl in Hmove; done).
      destruct (lookup_lt_is_Some_2 points (4 * i - 1)) as [pe Hpe]; [lia|].
      exists p, pe. rewrite Hp. split; [done|]. split; [done|]. split; [done|].
      by apply Hpen. }
  destruct Hbase as (base & ps & Hbase & Hall & Hps & Hpen).
  eexists; split; [apply (buildBody_segment points i st p0 p1 p2 p3 base); done|].
  rewrite (move_after_joint_open points i p3 H3).
  set (c := {| v0 := currentPoint base; v1 := vec2 p1; v2 := vec2 p2; v3 := vec2 p3 |}).
  assert (Hc2 : segment_curve points i = Some c).
  { unfold segment_curve. rewrite Hps, H1, H2, H3. subst c. by rewrite Hpen. }
  assert (Hall' : forall paths',
    (if joint_open points i
     then paths' = paths st ++ [bezierCurveTo (p1 !! 0) (p1 !! 1) (p2 !! 0) (p2 !! 1)
                                  (p3 !! 0) (p3 !! 1) base]
     else paths' = paths st) ->
    all_curves
      {| paths := paths';
         path := Some (bezierCurveTo (p1 !! 0) (p1 !! 1) (p2 !! 0) (p2 !! 1)
                         (p3 !! 0) (p3 !! 1) base);
         move := joint_open points i |} = all_curves st ++ [c]).
  { intros paths' Hp'. unfold all_curves at 1. simpl. rewrite Hall.
    destruct (joint_open points i); subst paths'.
    - rewrite map_app, concat_app. simpl. rewrite !app_nil_r, app_assoc. done.
    - rewrite app_assoc. done. }
  split; [lia|]. split; [|split; [|split; [|split; [|split]]]].
  - simpl. destruct (joint_open points i); [|done].
    apply Forall_app. split; [done|]. apply Forall_singleton. simpl.
    by destruct (curves base).
  - simpl. destruct (joint_open points i); [|lia].
    rewrite length_app. simpl. lia.
  - rewrite Hall' by (by destruct (joint_open points i)).
    rewrite length_app. simpl. lia.
  - intros k Hk. rewrite Hall' by (by destruct (joint_open points i)).
    destruct (decide (k < i)) as [Hlt|Hge].
    + rewrite lookup_app_l by lia. by apply Hsegs.
    + assert (k = i) as -> by lia.
      rewrite lookup_app_r by lia. rewrite Hlen, Nat.sub_diag. by rewrite Hc2.
  - done.
  - intros _. eexists. split; [reflexivity|]. split.
    + simpl. by destruct (curves base).
    + intros pe Hpe.
      replace (4 * S i - 1) with (4 * i + 3) in Hpe by lia.
      rewrite H3 in Hpe. by injection Hpe as <-.
Qed.

(** The first loop on complete segments, with all that it keeps. *)
Lemma buildPaths_run (points : list Point) :
  length points mod 4 = 0 ->
  exists ps,
    buildPaths points = Ok ps /\
    Forall (fun p => curves p <> []) ps /\
    length ps = count_open points (length points / 4) /\
    length (concat (map curves ps)) = length points / 4 /\
    (forall k, k < length points / 4 ->
       concat (map curves ps) !! k = segment_curve points k).
Proof using Type.
  intros Hmod. unfold buildPaths.
  destruct (for_loop_inv (build_inv points) (buildCond points) (buildBody points)
              (length points) (fun i s Hi Hc => build_inv_step points i s Hmod Hi Hc)
              (S (length points)) 0 buildInit) as (k & st & Hrun & Hinv & Hc).
  { split; [lia|]. split; [constructor|]. split; [done|]. split; [done|].
    split; [intros k Hk; lia|]. split; [done|]. intros Hm. done. }
  { lia. }
  destruct Hinv as (Hle & Hne & Hcnt & Hlen & Hsegs & Hmove & _).
  unfold buildCond in Hc. apply Nat.ltb_ge in Hc.
  assert (Hk : length points / 4 = k).
  { assert (4 * k = length points) as <- by lia.
    rewrite Nat.mul_comm, Nat.div_mul by done. done. }
  assert (Hm : move st = true).
  { rewrite Hmove. destruct k as [|k']; [done|]. simpl. unfold joint_open.
    rewrite (lookup_ge_None_2 points (4 * k' + 4)) by lia.
    by destruct (points !! (4 * k' + 3)). }
  unfold all_curves in Hlen, Hsegs. rewrite Hm, app_nil_r in Hlen, Hsegs.
  exists (paths st). rewrite Hrun, Hk. done.
Qed.

(** X1: on complete segments no returned path is empty: a path is pushed only
    after a curve was appended to it. *)
Theorem buildPaths_paths_nonempty (points : list Point) :
  length points mod 4 = 0 ->
  exists ps, buildPaths points = Ok ps /\ Forall (fun p => curves p <> []) ps.
Proof using Type.
  intros Hmod. destruct (buildPaths_run points Hmod) as (ps & Hrun & Hne & _).
  eauto.
Qed.

(** X2: on complete segments the curves of the returned paths, taken path
    after path, are the input segments in input order: curve [k] has the
    control points and the end point of segment [k]; it starts at the
    segment's own start point when it opens a path, and at the end point of
    segment [k - 1] otherwise (the start point of a continuing segment is not
    read). *)
Theorem buildPaths_curves_in_order (points : list Point) :
  length points mod 4 = 0 ->
  exists ps,
    buildPaths points = Ok ps /\
    length (concat (map curves ps)) = length points / 4 /\
    (forall k, k < length points / 4 ->
       exists c, concat (map curves ps) !! k = Some c /\
                 segment_curve points k = Some c).
Proof using Type.
  intros Hmod.
  destruct (buildPaths_run points Hmod) as (ps & Hrun & _ & _ & Hlen & Hsegs).
  exists ps. split; [done|]. split; [done|].
  intros k Hk.
  destruct (lookup_lt_is_Some_2 (concat (map curves ps)) k) as [c Hc]; [lia|].
  exists c. split; [done|]. by rewrite <- Hsegs.
Qed.

(** X3: on complete segments the number of returned paths is the number of
    open joints: the segment ends that are not close to the next segment
    start, and the end of the last segment. *)
Theorem buildPaths_path_count (points : list Point) :
  length points mod 4 = 0 ->
  exists ps,
    buildPaths points = Ok ps /\
    length ps = count_open points (length points / 4).
Proof using Type.
  intros Hmod. destruct (buildPaths_run points Hmod) as (ps & Hrun & _ & Hcnt & _).
  eauto.
Qed.

(** ** Classification: what every result satisfies *)

(** Drops the collaborators the classifier does not call, so that the set
    solver cannot pick them up. *)
Ltac classifier_only :=
  try clear mergeBufferGeometries; try clear MeshLine_geometry;
  try clear extractPoints; try clear fill_update;
  try clear MobjectFillBufferGeometry; try clear Geom; try clear allClose.

Lemma hole_count_snoc (shs : list Shape) (s : Shape) :
  hole_count (shs ++ [s]) = hole_count shs + length (holes s).
Proof using Type. unfold hole_count. rewrite sum_list_with_app. simpl. lia. Qed.

Lemma inner_inv_step (ps : list Path) (i : nat) (test_shape : Path) (d0 : gset nat)
    (j : nat) (st : InnerState) :
  i < length ps -> ps !! i = Some test_shape -> i ∉ d0 ->
  inner_inv ps i test_shape d0 j st -> j < length ps ->
  exists st', innerBody ps i test_shape j st = Ok st' /\
              inner_inv ps i test_shape d0 (S j) st'.
Proof using Type.
  classifier_only.
  intros Hi Hts Hid0 (Hsub & Hbound & Horigin & Hhit & Hnone & Hknown) Hj.
  unfold innerBody.
  destruct (decide (i = j)) as [Heq|Hij].
  { rewrite (bool_decide_eq_true_2 _ Heq). simpl. exists st. split; [done|].
    split; [done|]. split; [done|]. split.
    { intros x Hx. destruct (Horigin x Hx) as [?|[?|?]]; eauto with lia. }
    split; [|done].
    intros j' pj Hj' Hne. apply Hhit. lia. done. }
  rewrite (bool_decide_eq_false_2 _ Hij). simpl.
  destruct (decide (j ∈ inner_decided st)) as [Hin|Hnin].
  { rewrite (bool_decide_eq_true_2 _ Hin). exists st. split; [done|].
    split; [done|]. split; [done|]. split.
    { intros x Hx. destruct (Horigin x Hx) as [?|[?|?]]; eauto with lia. }
    split; [|done].
    intros j' pj Hj' Hne Hd0. destruct (decide (j' = j)) as [->|Hjj].
    - destruct (Horigin j Hin) as [?|[?|?]]; [done|congruence|lia].
    - apply Hhit; [lia|done|done]. }
  rewrite (bool_decide_eq_false_2 _ Hnin).
  destruct (readPath_ok ps j Hj) as (pj & -> & Hpj). cbn [bind].
  destruct (isPointInsidePolygon (getPoint pj 0%Q) (getPoints test_shape)) eqn:Hinside.
  2:{ exists st. split; [done|]. split; [done|]. split; [done|]. split.
      { intros x Hx. destruct (Horigin x Hx) as [?|[?|?]]; eauto with lia. }
      split; [|done].
      intros j' pj' Hj' Hne Hd0 Hpj' Hin'. destruct (decide (j' = j)) as [->|Hjj].
      - congruence.
      - by apply (Hhit j' pj'); [lia|..]. }
  assert (Hnc : ~ no_containment ps).
  { intros Hno. rewrite (Hno i j test_shape pj Hij Hts Hpj) in Hinside. done. }
  assert (Hpjin : pj ∈ ps) by (by apply list_elem_of_lookup_2 with j).
  destruct (known_shape st) as [known|] eqn:Hk.
  - destruct Hknown as (Hcurves & Hholes & Hall & Hiin & Hsize).
    eexists. split; [reflexivity|]. simpl.
    split; [set_solver|]. split.
    { intros x Hx. apply elem_of_union in Hx as [Hx|Hx]; [|by apply Hbound].
      apply elem_of_singleton in Hx as ->. done. }
    split.
    { intros x Hx. apply elem_of_union in Hx as [Hx|Hx].
      - apply elem_of_singleton in Hx as ->. right; right; lia.
      - destruct (Horigin x Hx) as [?|[?|?]]; eauto with lia. }
    split; [intros; set_solver|]. split; [done|].
    split; [done|]. split; [by intros []%app_eq_nil|]. split.
    { intros h Hh. apply elem_of_app in Hh as [Hh|Hh]; [by apply Hall|].
      apply list_elem_of_singleton in Hh as ->. done. }
    split; [set_solver|]. cbn [inner_decided holes push_hole].
    rewrite size_union by set_solver. rewrite size_singleton, length_app. simpl. lia.
  - eexists. split; [reflexivity|]. simpl. rewrite Hknown.
    split; [set_solver|]. split.
    { intros x Hx. apply elem_of_union in Hx as [Hx|Hx].
      - apply elem_of_singleton in Hx as ->. done.
      - apply elem_of_union in Hx as [Hx|Hx].
        + apply elem_of_singleton in Hx as ->. done.
        + apply Hbound. by rewrite Hknown. }
    split.
    { intros x Hx. apply elem_of_union in Hx as [Hx|Hx].
      - apply elem_of_singleton in Hx as ->. right; right; lia.
      - apply elem_of_union in Hx as [Hx|Hx].
        + apply elem_of_singleton in Hx as ->. by right; left.
        + by left. }
    split; [intros; set_solver|]. split; [done|].
    split; [done|]. split; [done|]. split.
    { intros h Hh. apply list_elem_of_singleton in Hh as ->. done. }
    split; [set_solver|]. cbn [inner_decided holes push_hole].
    rewrite size_union by set_solver. rewrite size_union by set_solver.
    rewrite !size_singleton. simpl. lia.
Qed.

(** The inner loop for an undecided candidate returns, with its invariant at
    an index past the last path. *)
Lemma inner_run (ps : list Path) (i : nat) (test_shape : Path) (d0 : gset nat) :
  i < length ps -> ps !! i = Some test_shape -> i ∉ d0 ->
  (forall x, x ∈ d0 -> x < length ps) ->
  exists k st,
    for_loop (S (length ps)) (indexCond ps) (innerBody ps i test_shape) 0
      {| known_shape := None; inner_decided := d0 |} = Ok st /\
    length ps <= k /\ inner_inv ps i test_shape d0 k st.
Proof using Type.
  intros Hi Hts Hid0 Hd0.
  destruct (for_loop_inv (inner_inv ps i test_shape d0) (indexCond ps)
              (innerBody ps i test_shape) (length ps))
    with (fuel := S (length ps)) (i := 0)
         (s := {| known_shape := None; inner_decided := d0 |})
    as (k & st & Hrun & Hinv & Hc).
  - intros j s Hinv Hc. unfold indexCond in Hc. apply Nat.ltb_lt in Hc.
    split; [done|]. by apply inner_inv_step.
  - split; [done|]. split; [done|]. split; [by left|].
    split; [intros; lia|]. done.
  - lia.
  - unfold indexCond in Hc. apply Nat.ltb_ge in Hc. eauto.
Qed.

Lemma outer_inv_step (ps : list Path) (i : nat) (st : ClassifyState) :
  outer_inv ps i st -> i < length ps ->
  exists st', outerBody ps i st = Ok st' /\ outer_inv ps (S i) st'.
Proof using Type.
  classifier_only.
  intros (Hbound & Hshapes & Hcount & Hzero & Hfirst & Hno) Hi.
  unfold outerBody.
  destruct (decide (i ∈ decided_path_indices st)) as [Hin|Hnin].
  { rewrite (bool_decide_eq_true_2 _ Hin). exists st. split; [done|].
    split; [done|]. split; [done|]. split; [done|]. split; [lia|]. split; [|done].
    intros Hf _. destruct i as [|i']; [done|]. apply Hfirst; [done|lia]. }
  rewrite (bool_decide_eq_false_2 _ Hnin).
  destruct (readPath_ok ps i Hi) as (ts & -> & Hts). cbn [bind].
  destruct (inner_run ps i ts (decided_path_indices st) Hi Hts Hnin Hbound)
    as (k & inner & -> & Hk & Hsub & Hbound' & _ & Hhit & Hnone & Hknown).
  cbn [bind]. eexists. split; [reflexivity|]. simpl.
  assert (Hfirst' : first_path_contains ps -> 0 ∈ inner_decided inner).
  { intros Hf. destruct i as [|i'].
    - destruct Hf as (j & p0 & pj & Hj & Hp0 & Hpj & Hin).
      rewrite Hts in Hp0. injection Hp0 as <-.
      apply (Hhit j pj); [|lia| |done|done].
      + apply lookup_lt_Some in Hpj. lia.
      + rewrite (Hzero eq_refl). set_solver.
    - apply Hsub, Hfirst; [done|lia]. }
  split; [done|].
  destruct (known_shape inner) as [known|] eqn:Hkn.
  - destruct Hknown as (Hcurves & Hholes & Hall & Hiin & Hsize).
    cbn [shapes_acc decided_path_indices]. split.
    { apply Forall_app. split; [done|]. apply Forall_singleton. split; [|done].
      exists ts. split; [by apply list_elem_of_lookup_2 with i|]. done. }
    split; [rewrite length_app, hole_count_snoc; simpl; lia|].
    split; [lia|]. split; [by intros Hf _; apply Hfirst'|].
    intros Hnc. by specialize (Hnone Hnc).
  - cbn [shapes_acc decided_path_indices].
    split; [done|]. split; [by rewrite Hknown|]. split; [lia|].
    split; [by intros Hf _; apply Hfirst'|].
    intros Hnc. rewrite Hknown. by apply Hno.
Qed.

Lemma rest_inv_step (ps : list Path) (st0 : ClassifyState) (k : nat)
    (st : ClassifyState) :
  rest_inv ps st0 k st -> restCond ps k st = true ->
  k < length ps /\
  exists st', restBody ps k st = Ok st' /\ rest_inv ps st0 (S k) st'.
Proof using Type.
  intros (Hdec & Hacc & Hbelow & Hle) Hc.
  unfold restCond in Hc. apply andb_true_iff in Hc as [Hlt Hnd].
  apply Nat.ltb_lt in Hlt. apply negb_true_iff, bool_decide_eq_false in Hnd.
  split; [done|]. unfold restBody.
  destruct (readPath_ok ps k Hlt) as (p & -> & Hp). cbn [bind].
  eexists. split; [reflexivity|]. simpl.
  split; [done|]. split.
  - rewrite Hacc, (take_S_r ps k p Hp), map_app, app_assoc. done.
  - split; [|lia]. intros x Hx. destruct (decide (x = k)) as [->|Hne].
    + by rewrite <- Hdec.
    + apply Hbelow. lia.
Qed.

(** The classifier returns the shapes of the double loop followed by the
    trivial shapes of the undecided indices below the first decided one. *)
Lemma classify_run (ps : list Path) :
  exists st k,
    classify ps = Ok (shapes_acc st ++ map trivial_shape (take k ps)) /\
    (forall x, x ∈ decided_path_indices st -> x < length ps) /\
    Forall (fun s => shape_from ps s /\ holes s <> []) (shapes_acc st) /\
    length (shapes_acc st) + hole_count (shapes_acc st)
      = size (decided_path_indices st) /\
    (first_path_contains ps -> 0 ∈ decided_path_indices st) /\
    (no_containment ps -> decided_path_indices st = ∅ /\ shapes_acc st = []) /\
    k <= length ps /\
    (forall x, x < k -> x ∉ decided_path_indices st) /\
    (k < length ps -> k ∈ decided_path_indices st).
Proof using Type.
  classifier_only.
  unfold classify.
  destruct (for_loop_inv (outer_inv ps) (indexCond ps) (outerBody ps) (length ps))
    with (fuel := S (length ps)) (i := 0)
         (s := {| shapes_acc := []; decided_path_indices := ∅ |})
    as (i & st & -> & (Hbound & Hshapes & Hcount & _ & Hfirst & Hno) & Hc).
  { intros i s Hinv Hc. unfold indexCond in Hc. apply Nat.ltb_lt in Hc.
    split; [done|]. by apply outer_inv_step. }
  { split; [set_solver|]. split; [constructor|]. split; [done|].
    split; [done|]. split; [lia|]. done. }
  { lia. }
  unfold indexCond in Hc. apply Nat.ltb_ge in Hc. cbn [bind].
  destruct (for_loop_inv (rest_inv ps st) (restCond ps) (restBody ps) (length ps))
    with (fuel := S (length ps)) (i := 0) (s := st)
    as (k & st' & -> & (Hdec & Hacc & Hbelow & Hle) & Hc').
  { intros k s Hinv Hck. by apply rest_inv_step. }
  { split; [done|]. split; [simpl; by rewrite app_nil_r|]. split; [intros; lia|lia]. }
  { lia. }
  cbn [bind]. exists st, k. rewrite Hacc. split; [done|].
  split; [done|]. split; [done|]. split; [done|]. split.
  { intros Hf. apply Hfirst; [done|].
    destruct Hf as (j & p0 & pj & _ & Hp0 & _). apply lookup_lt_Some in Hp0. lia. }
  split; [done|]. split; [done|]. split; [done|].
  intros Hk. unfold restCond in Hc'.
  apply andb_false_iff in Hc' as [Hc'|Hc'].
  - apply Nat.ltb_ge in Hc'. lia.
  - apply negb_false_iff, bool_decide_eq_true in Hc'. by rewrite <- Hdec.
Qed.

(** X4: when no path passes the containment test against another path, every
    path becomes a shape of its own without holes, in input order. *)
Theorem classify_no_containment (ps : list Path) :
  no_containment ps -> classify ps = Ok (map trivial_shape ps).
Proof using Type.
  classifier_only.
  intros Hnc.
  destruct (classify_run ps)
    as (st & k & -> & _ & _ & _ & _ & Hno & Hle & _ & Hk).
  destruct (Hno Hnc) as (Hdec & ->). simpl.
  rewrite take_ge; [done|].
  destruct (decide (k < length ps)) as [Hlt|]; [|lia].
  specialize (Hk Hlt). rewrite Hdec in Hk. set_solver.
Qed.

(** X5: the classifier returns, and every shape it returns is made of input
    paths: the outline has the curves of an input path and every hole is an
    input path whose first sampled point passed the containment test against
    that path. *)
Theorem classify_shapes_from_paths (ps : list Path) :
  exists shs, classify ps = Ok shs /\ Forall (shape_from ps) shs.
Proof using Type.
  destruct (classify_run ps) as (st & k & Hrun & _ & Hshapes & _).
  eexists. split; [exact Hrun|].
  apply Forall_app. split.
  - eapply Forall_impl; [exact Hshapes|]. by intros s [Hs _].
  - apply Forall_forall. intros s Hs.
    apply list_elem_of_fmap in Hs as (p & -> & Hp).
    exists p. split; [|split; [done|]].
    + apply list_elem_of_lookup in Hp as [x Hx].
      apply lookup_take_Some in Hx as [Hx _]. by apply list_elem_of_lookup_2 with x.
    + simpl. intros h Hh. by apply elem_of_nil in Hh.
Qed.

Lemma used_indices_snoc (asg : list (nat * list nat)) (i : nat) (js : list nat) :
  used_indices (asg ++ [(i, js)]) = used_indices asg ++ i :: js.
Proof using Type.
  unfold used_indices. rewrite map_app, concat_app. simpl. by rewrite app_nil_r.
Qed.

Lemma innerBody_asg (ps : list Path) (i : nat) (test_shape : Path) (d0 : gset nat)
    (j : nat) (st st' : InnerState) :
  ps !! i = Some test_shape -> i ∉ d0 ->
  inner_asg ps i d0 st -> innerBody ps i test_shape j st = Ok st' ->
  inner_asg ps i d0 st'.
Proof using Type.
  classifier_only.
  intros Hts Hid0 (Hsub & Hk) Hb. unfold innerBody in Hb.
  destruct (decide (i = j)) as [Heq|Hij].
  { rewrite (bool_decide_eq_true_2 _ Heq) in Hb. simpl in Hb. by injection Hb as <-. }
  rewrite (bool_decide_eq_false_2 _ Hij) in Hb. simpl in Hb.
  destruct (decide (j ∈ inner_decided st)) as [Hin|Hnin].
  { rewrite (bool_decide_eq_true_2 _ Hin) in Hb. by injection Hb as <-. }
  rewrite (bool_decide_eq_false_2 _ Hnin) in Hb.
  unfold readPath in Hb. destruct (ps !! j) as [pj|] eqn:Hpj; [|done].
  cbn [bind] in Hb.
  destruct (isPointInsidePolygon _ _); [|by injection Hb as <-].
  destruct (known_shape st) as [known|] eqn:Hkn; injection Hb as <-;
    cbn [inner_asg known_shape inner_decided].
  - destruct Hk as (js & ((p & Hp & Hc) & Hholes) & Hnd & Hall).
    split; [set_solver|]. exists (js ++ [j]). split; [|split].
    + split; [by exists p|]. simpl. apply Forall2_app; [done|]. by constructor.
    + rewrite app_comm_cons. apply NoDup_app. split; [done|]. split.
      * intros x Hx Hxj. apply list_elem_of_singleton in Hxj as ->.
        by destruct (Hall j Hx).
      * apply NoDup_singleton.
    + intros x Hx. rewrite app_comm_cons in Hx. apply elem_of_app in Hx as [Hx|Hx].
      * destruct (Hall x Hx). split; [done|set_solver].
      * apply list_elem_of_singleton in Hx as ->. split; set_solver.
  - split; [set_solver|]. exists [j]. split; [|split].
    + split; [by exists test_shape|]. simpl. by constructor.
    + apply NoDup_cons. split; [|apply NoDup_singleton].
      intros Hx. by apply list_elem_of_singleton in Hx.
    + intros x Hx. apply elem_of_cons in Hx as [->|Hx].
      * split; [done|set_solver].
      * apply list_elem_of_singleton in Hx as ->. split; set_solver.
Qed.

Lemma outerBody_asg (ps : list Path) (i : nat) (st st' : ClassifyState) :
  shapes_asg ps 0 st -> outerBody ps i st = Ok st' -> shapes_asg ps 0 st'.
Proof using Type.
  classifier_only.
  intros (asg & Hf & Hnd & Hdec) Hb. unfold outerBody in Hb.
  destruct (decide (i ∈ decided_path_indices st)) as [Hin|Hnin].
  { rewrite (bool_decide_eq_true_2 _ Hin) in Hb. injection Hb as <-. by exists asg. }
  rewrite (bool_decide_eq_false_2 _ Hnin) in Hb.
  unfold readPath in Hb. destruct (ps !! i) as [ts|] eqn:Hts; [|done].
  cbn [bind] in Hb.
  destruct (for_loop (S (length ps)) (indexCond ps) (innerBody ps i ts) 0
              {| known_shape := None; inner_decided := decided_path_indices st |})
    as [inner| |] eqn:Hloop; [|done|done].
  cbn [bind] in Hb. injection Hb as <-.
  assert (Hinit : inner_asg ps i (decided_path_indices st)
                    {| known_shape := None; inner_decided := decided_path_indices st |})
    by done.
  destruct (for_loop_preserves
              (fun _ s => inner_asg ps i (decided_path_indices st) s)
              (indexCond ps) (innerBody ps i ts)
              (fun j s s' Hs _ Hbody =>
                 innerBody_asg ps i ts (decided_path_indices st) j s s' Hts Hnin Hs Hbody)
              _ _ _ _ Hinit Hloop) as (_ & Hsub & Hk).
  assert (Hold : forall x, x ∈ used_indices asg -> x ∈ decided_path_indices st).
  { intros x Hx. destruct (Hdec x Hx); [done|lia]. }
  destruct (known_shape inner) as [known|].
  - destruct Hk as (js & Huses & Hnd' & Hall).
    exists (asg ++ [(i, js)]). cbn [shapes_acc decided_path_indices].
    rewrite used_indices_snoc. split; [|split].
    + apply Forall2_app; [done|]. by constructor.
    + apply NoDup_app. split; [done|]. split; [|done].
      intros x Hx Hx'. destruct (Hall x Hx'). by apply Hold in Hx.
    + intros x Hx. left. apply elem_of_app in Hx as [Hx|Hx].
      * apply Hsub. by apply Hold.
      * by destruct (Hall x Hx).
  - exists asg. cbn [shapes_acc decided_path_indices]. split; [done|]. split; [done|].
    intros x Hx. left. apply Hsub. by apply Hold.
Qed.

Lemma restBody_asg (ps : list Path) (k : nat) (st st' : ClassifyState) :
  shapes_asg ps k st -> restCond ps k st = true -> restBody ps k st = Ok st' ->
  shapes_asg ps (S k) st'.
Proof using Type.
  classifier_only.
  intros (asg & Hf & Hnd & Hdec) Hc Hb.
  unfold restCond in Hc. apply andb_true_iff in Hc as [_ Hnd'].
  apply negb_true_iff, bool_decide_eq_false in Hnd'.
  unfold restBody, readPath in Hb. destruct (ps !! k) as [p|] eqn:Hp; [|done].
  cbn [bind] in Hb. injection Hb as <-.
  exists (asg ++ [(k, [])]). cbn [shapes_acc decided_path_indices].
  rewrite used_indices_snoc. split; [|split].
  - apply Forall2_app; [done|]. constructor; [|done].
    split; [by exists p|]. simpl. constructor.
  - apply NoDup_app. split; [done|]. split; [|apply NoDup_singleton].
    intros x Hx Hxk. apply list_elem_of_singleton in Hxk as ->.
    destruct (Hdec k Hx); [done|lia].
  - intros x Hx. apply elem_of_app in Hx as [Hx|Hx].
    + destruct (Hdec x Hx); [by left|right; lia].
    + apply list_elem_of_singleton in Hx as ->. right. lia.
Qed.

(** X6: no path is used twice: the classifier returns, and the outlines and
    the holes of the shapes it returns can be assigned to path indices (an
    outline to the index of a path with its curves, a hole to the index of the
    path it is) so that no index is assigned twice. *)
Theorem classify_paths_used_once (ps : list Path) :
  exists shs asg,
    classify ps = Ok shs /\
    Forall2 (uses ps) shs asg /\
    NoDup (used_indices asg).
Proof using Type.
  classifier_only.
  destruct (classify_ok ps) as [shs Hrun]. exists shs.
  pose proof Hrun as Hrun'. unfold classify in Hrun'.
  destruct (for_loop (S (length ps)) (indexCond ps) (outerBody ps) 0
              {| shapes_acc := []; decided_path_indices := ∅ |})
    as [st| |] eqn:Houter; [|done|done].
  cbn [bind] in Hrun'.
  destruct (for_loop (S (length ps)) (restCond ps) (restBody ps) 0 st)
    as [st'| |] eqn:Hrest; [|done|done].
  cbn [bind] in Hrun'. injection Hrun' as <-.
  assert (Hinit : shapes_asg ps 0 {| shapes_acc := []; decided_path_indices := ∅ |}).
  { exists []. split; [constructor|]. split; [constructor|].
    intros x Hx. by apply elem_of_nil in Hx. }
  destruct (for_loop_preserves (fun _ s => shapes_asg ps 0 s)
              (indexCond ps) (outerBody ps)
              (fun i s s' Hs _ Hbody => outerBody_asg ps i s s' Hs Hbody)
              _ _ _ _ Hinit Houter) as [_ Hst].
  destruct (for_loop_preserves (shapes_asg ps) (restCond ps) (restBody ps)
              (restBody_asg ps) _ _ _ _ Hst Hrest) as (k & asg & Hf & Hnd & _).
  by exists asg.
Qed.

(** X7: when the first path passes the containment test for some other path,
    the trailing loop adds nothing: every shape of the result has a hole, and
    a path that neither contains nor is contained is in no shape. *)
Theorem classify_first_path_outer (ps : list Path) :
  first_path_contains ps ->
  exists shs, classify ps = Ok shs /\ Forall (fun s => holes s <> []) shs.
Proof using Type.
  intros Hf.
  destruct (classify_run ps)
    as (st & k & Hrun & _ & Hshapes & _ & Hfirst & _ & _ & Hbelow & _).
  assert (k = 0) as ->.
  { destruct k as [|k']; [done|]. exfalso. apply (Hbelow 0); [lia|by apply Hfirst]. }
  eexists. split; [exact Hrun|]. simpl. rewrite app_nil_r.
  eapply Forall_impl; [exact Hshapes|]. by intros s [_ Hs].
Qed.

(** ** Path building and classification composed *)

Lemma count_open_closed_joints (points : list Point) (m : nat) :
  chained points -> 4 * m + 3 < length points -> count_open points m = 0.
Proof using Type.
  intros Hchain. induction m as [|m IH]; intros Hm; [done|].
  simpl. rewrite IH by lia.
  destruct (lookup_lt_is_Some_2 points (4 * m + 3)) as [pa Ha]; [lia|].
  destruct (lookup_lt_is_Some_2 points (4 * m + 4)) as [pb Hb]; [lia|].
  unfold joint_open. rewrite Ha, Hb, (Hchain m pa pb Ha Hb). done.
Qed.

(** X13: a non-empty chained sequence of complete segments, one contour,
    comes out of [computeShapes] as exactly one shape without holes whose
    outline holds all the segments of the input, in order, whatever the
    containment test answers: a path is never tested against itself. *)
Theorem computeShapes_single_contour (points : list Point) :
  points <> [] ->
  length points mod 4 = 0 ->
  chained points ->
  exists s,
    computeShapes points = Ok [s] /\
    holes s = [] /\
    length (curves (outline s)) = length points / 4 /\
    (forall k, k < length points / 4 ->
       exists c, curves (outline s) !! k = Some c /\ is_segment points k c).
Proof using Type.
  intros Hne Hmod Hchain.
  destruct (buildPaths_chained_run points Hne Hmod Hchain) as (p & Hrun & Hlen & Hsegs).
  exists (trivial_shape p). split.
  - unfold computeShapes. rewrite Hrun. vm_compute. reflexivity.
  - split; [done|]. split; [exact Hlen|exact Hsegs].
Qed.

(** A non-empty list of paths is classified into at least one shape. *)
Lemma classify_nonempty (ps : list Path) :
  ps <> [] -> exists shs, classify ps = Ok shs /\ shs <> [].
Proof using Type.
  classifier_only.
  intros Hne.
  destruct (classify_run ps) as (st & k & Hrun & _ & _ & Hcount & _ & _ & _ & _ & Hk).
  eexists. split; [exact Hrun|].
  destruct k as [|k'].
  - assert (H0 : 0 ∈ decided_path_indices st).
    { apply Hk. destruct ps; [done|simpl; lia]. }
    destruct (shapes_acc st) as [|s l]; [|done]. exfalso.
    assert (Hsize : size (decided_path_indices st) = 0) by (by rewrite <- Hcount).
    apply size_empty_inv in Hsize. set_solver.
  - destruct ps as [|p ps']; [done|]. simpl. by destruct (shapes_acc st).
Qed.

(** [computeShapes] on a non-empty sequence of complete segments returns at
    least one shape. *)
Lemma computeShapes_nonempty (points : list Point) :
  points <> [] -> length points mod 4 = 0 ->
  exists shs, computeShapes points = Ok shs /\ shs <> [].
Proof using Type.
  intros Hne Hmod.
  destruct (buildPaths_returns points Hmod) as (ps & Hrun & Hcount).
  unfold computeShapes. rewrite Hrun. cbn [bind]. apply classify_nonempty.
  intros ->. unfold segment_count in Hcount. cbn [sum_list_with] in Hcount.
  pose proof (Nat.div_mod_eq (length points) 4) as Hdiv.
  destruct points; [done|]. cbn [length] in *. lia.
Qed.

(** ** The constructor and the buffers of other entities *)

(** X8: a construction that fails on points that are not complete segments
    has already merged its style argument into the module-level style object;
    it throws the TypeError of [computeShapes] and allocates no buffer. *)
Theorem constructor_throws_after_style_merge (id : nat) (points : list Point)
    (style_arg : StyleArg.t) (σ : Store) (d : Style) :
  length points mod 4 <> 0 ->
  styles σ !! DEFAULT_STYLE = Some d ->
  constructor id points style_arg σ =
  (Throw (TypeError "points" (length points)),
   {| styles := <[ DEFAULT_STYLE := assign_fields d style_arg ]> (styles σ);
      geometries := geometries σ |}).
Proof using Type.
  intros Hmod Hd. unfold constructor, Object_assign, lift, bind_M.
  rewrite Hd. simpl. by rewrite (computeShapes_throws points Hmod).
Qed.

(** X10: on a non-empty sequence of complete segments the constructor returns
    an entity with the given id and the computed shapes whose fill and stroke
    geometries are two new objects, not bound before, not disposed, holding
    the tessellation of the shapes and the merged ribbons; every buffer that
    was bound keeps its content. *)
Theorem constructor_allocates_fresh_buffers (id : nat) (points : list Point)
    (style_arg : StyleArg.t) (σ : Store) (d : Style) :
  points <> [] ->
  length points mod 4 = 0 ->
  styles σ !! DEFAULT_STYLE = Some d ->
  exists this σ' shs,
    computeShapes points = Ok shs /\
    constructor id points style_arg σ = (Ok this, σ') /\
    mobjectId this = id /\ shapes this = shs /\
    geometries σ !! geometry (fillMesh this) = None /\
    geometries σ !! geometry (strokeMesh this) = None /\
    geometry (fillMesh this) <> geometry (strokeMesh this) /\
    geometries σ' !! geometry (fillMesh this) =
      Some {| content := MobjectFillBufferGeometry shs 11; disposed := false |} /\
    geometries σ' !! geometry (strokeMesh this) =
      Some {| content := mergeBufferGeometries (map createMeshLineGeometries shs);
              disposed := false |} /\
    (forall r, is_Some (geometries σ !! r) ->
       geometries σ' !! r = geometries σ !! r).
Proof using Type.
  intros Hpoints Hmod Hd.
  destruct (computeShapes_nonempty points Hpoints Hmod) as (shs & Hshs & Hne).
  eexists _, _, shs. split; [done|].
  split; [apply (constructor_eq id points style_arg σ d shs Hd Hshs Hne)|].
  simpl.
  set (bf := {| content := MobjectFillBufferGeometry shs 11; disposed := false |}).
  set (rf := fresh (dom (geometries σ))).
  assert (Hrf : geometries σ !! rf = None).
  { apply not_elem_of_dom. apply is_fresh. }
  destruct (fresh_after_insert (geometries σ) rf bf) as (Hr1 & Hr2 & Hr3).
  split; [done|]. split; [done|]. split; [done|]. split; [done|].
  split; [congruence|]. split.
  { rewrite lookup_insert_ne by done. by rewrite lookup_insert_eq. }
  split; [by rewrite lookup_insert_eq|].
  intros r Hr. rewrite lookup_insert_ne by (by apply Hr3).
  rewrite lookup_insert_ne; [done|]. intros <-. rewrite Hrf in Hr. by destruct Hr.
Qed.

(** X12: [update] writes only to the entity's own two geometries and to new
    ones: whenever it returns, every other buffer that was bound is bound to
    the same content, and every style object other than the one the entity
    refers to is unchanged. *)
Theorem update_keeps_other_objects (this this' : Mobject) (points : list Point)
    (style_arg : StyleArg.t) (needsRedraw : bool) (σ σ' : Store) :
  entity_ok σ this ->
  update this points style_arg needsRedraw σ = (Ok this', σ') ->
  (forall r, r <> geometry (fillMesh this) -> r <> geometry (strokeMesh this) ->
     is_Some (geometries σ !! r) -> geometries σ' !! r = geometries σ !! r) /\
  (forall r, r <> style this -> styles σ' !! r = styles σ !! r).
Proof using Type.
  intros ([s Hs] & [bf Hbf] & [bs Hbs] & Hne) Hu.
  destruct (update_returns_inv _ _ _ _ _ _ _ _ Hs Hu) as (_ & Hst & _).
  split; [|intros r Hr; rewrite Hst; by apply lookup_insert_ne].
  intros r Hrf Hrs Hr. destruct needsRedraw.
  - destruct (computeShapes points) as [shs| |] eqn:Hshs.
    2,3: revert Hu; unfold update, lift, bind_M; rewrite Hshs; done.
    assert (Hcase : skips_stroke s style_arg = true \/ shs <> []).
    { destruct (skips_stroke s style_arg) eqn:HS; [by left|]. right. intros ->.
      by rewrite (update_redraw_merge_throws this points style_arg σ s bf bs) in Hu. }
    rewrite (update_redraw_eq this points style_arg σ s bf bs shs) in Hu by done.
    injection Hu as <- <-. simpl.
    match goal with
    | |- context [fresh (dom (<[ ?k := ?b ]> ?gs))] =>
        destruct (fresh_after_insert gs k b) as (Hr1 & Hr2 & Hr3)
    end.
    assert (Hgs1 : (if skips_fill s style_arg then geometries σ
                    else <[ geometry (fillMesh this) :=
                              {| content := fill_update (content bf) shs;
                                 disposed := disposed bf |} ]> (geometries σ)) !! r
                   = geometries σ !! r).
    { destruct (skips_fill s style_arg); [done|]. by rewrite lookup_insert_ne. }
    destruct (skips_stroke s style_arg); [done|].
    rewrite lookup_insert_ne by (apply Hr3; by rewrite Hgs1).
    rewrite lookup_insert_ne by done. done.
  - rewrite (update_no_redraw_eq this points style_arg σ s Hs) in Hu.
    by injection Hu as <- <-.
Qed.

(** X14: the constructor throws on the empty sequence: [computeShapes]
    returns no shape and the merge of no stroke geometries raises a TypeError,
    after the style argument was merged into the module-level style object
    and the fill geometry allocated. *)
Theorem constructor_empty_points_throws (id : nat) (style_arg : StyleArg.t)
    (σ : Store) (d : Style) :
  styles σ !! DEFAULT_STYLE = Some d ->
  constructor id [] style_arg σ =
  (Throw (TypeError "geometries" 0),
   {| styles := <[ DEFAULT_STYLE := assign_fields d style_arg ]> (styles σ);
      geometries :=
        <[ fresh (dom (geometries σ)) :=
             {| content := MobjectFillBufferGeometry [] 11; disposed := false |} ]>
          (geometries σ) |}).
Proof using Type.
  intros Hd.
  unfold constructor, computeFillGeometry, computeFillMaterial,
    computeStrokeGeometry, computeStrokeMaterial, Object_assign, new_geometry,
    read_style, lift, bind_M, ret.
  rewrite Hd. run_store. done.
Qed.

(** ** The skips of [update] *)

(** C5 (as amended): [update] with [needsRedraw = true] on a non-empty sequence
    of complete segments, when the current fill opacity and the [fillOpacity]
    field of the style argument are both exactly 0 (the next opacity of the
    test at line 41 is the field of the argument, not the merged one),
    returns with the fill geometry untouched (same reference, same buffer);
    and when the current stroke opacity or the [strokeOpacity] field of the
    argument is not exactly 0, the old stroke geometry is disposed and the
    entity holds a new one, built from the recomputed shapes. *)
Theorem update_redraw_invisible_fill_untouched (this : Mobject) (points : list Point)
    (style_arg : StyleArg.t) (σ : Store) (s : Style) (bf bs : BufferGeometry) :
  points <> [] ->
  length points mod 4 = 0 ->
  styles σ !! style this = Some s ->
  geometries σ !! geometry (fillMesh this) = Some bf ->
  geometries σ !! geometry (strokeMesh this) = Some bs ->
  geometry (fillMesh this) <> geometry (strokeMesh this) ->
  strict_eq_0 (Some (fillOpacity s)) = true ->
  strict_eq_0 (StyleArg.fillOpacity style_arg) = true ->
  exists this' σ' shs,
    computeShapes points = Ok shs /\
    update this points style_arg true σ = (Ok this', σ') /\
    geometry (fillMesh this') = geometry (fillMesh this) /\
    geometries σ' !! geometry (fillMesh this) = Some bf /\
    (strict_eq_0 (Some (strokeOpacity s)) = false \/
     strict_eq_0 (StyleArg.strokeOpacity style_arg) = false ->
     geometries σ' !! geometry (strokeMesh this) =
       Some {| content := content bs; disposed := true |} /\
     geometries σ !! geometry (strokeMesh this') = None /\
     geometries σ' !! geometry (strokeMesh this') =
       Some {| content := mergeBufferGeometries (map createMeshLineGeometries shs);
               disposed := false |}).
Proof using Type.
  intros Hpoints Hmod Hs Hbf Hbs Hne Hcur Hnext.
  destruct (computeShapes_nonempty points Hpoints Hmod) as (shs & Hshs & Hshapes).
  eexists _, _, shs. split; [done|].
  split; [apply (update_redraw_eq this points style_arg σ s bf bs shs); auto|].
  assert (HF : skips_fill s style_arg = true).
  { unfold skips_fill. by rewrite Hcur, Hnext. }
  rewrite HF. simpl.
  destruct (fresh_after_insert (geometries σ) (geometry (strokeMesh this))
              {| content := content bs; disposed := true |}) as (Hr1 & Hr2 & Hr3).
  split; [done|]. split.
  - destruct (skips_stroke s style_arg); [done|].
    rewrite !lookup_insert_ne; [done|done|]. apply Hr3. by rewrite Hbf.
  - intros Hstroke.
    assert (HS : skips_stroke s style_arg = false).
    { unfold skips_stroke. destruct Hstroke as [-> | ->]; [done|].
      apply andb_false_r. }
    rewrite HS. rewrite lookup_insert_eq.
    rewrite lookup_insert_ne, lookup_insert_eq by done. done.
Qed.

(** C10 (as amended): the two skips of [update] test the raw argument.  On a
    non-empty sequence of complete segments, when the argument omits
    [fillOpacity] and the current fill opacity is exactly 0, the merged fill
    opacity is still exactly 0 and yet the fill geometry has been updated from
    the recomputed shapes; when it omits [strokeOpacity] and the current
    stroke opacity is exactly 0, the merged stroke opacity is still exactly 0
    and yet the stroke geometry has been disposed and replaced. *)
Theorem update_skip_tests_raw_argument (this : Mobject) (points : list Point)
    (style_arg : StyleArg.t) (σ : Store) (s : Style) (bf bs : BufferGeometry) :
  points <> [] ->
  length points mod 4 = 0 ->
  styles σ !! style this = Some s ->
  geometries σ !! geometry (fillMesh this) = Some bf ->
  geometries σ !! geometry (strokeMesh this) = Some bs ->
  geometry (fillMesh this) <> geometry (strokeMesh this) ->
  exists this' σ' shs s',
    computeShapes points = Ok shs /\
    update this points style_arg true σ = (Ok this', σ') /\
    styles σ' !! style this' = Some s' /\
    (StyleArg.fillOpacity style_arg = None ->
     strict_eq_0 (Some (fillOpacity s)) = true ->
     strict_eq_0 (Some (fillOpacity s')) = true /\
     geometry (fillMesh this') = geometry (fillMesh this) /\
     geometries σ' !! geometry (fillMesh this') =
       Some {| content := fill_update (content bf) shs; disposed := disposed bf |}) /\
    (StyleArg.strokeOpacity style_arg = None ->
     strict_eq_0 (Some (strokeOpacity s)) = true ->
     strict_eq_0 (Some (strokeOpacity s')) = true /\
     geometries σ' !! geometry (strokeMesh this) =
       Some {| content := content bs; disposed := true |} /\
     geometries σ !! geometry (strokeMesh this') = None /\
     geometries σ' !! geometry (strokeMesh this') =
       Some {| content := mergeBufferGeometries (map createMeshLineGeometries shs);
               disposed := false |}).
Proof using Type.
  intros Hpoints Hmod Hs Hbf Hbs Hne.
  destruct (computeShapes_nonempty points Hpoints Hmod) as (shs & Hshs & Hshapes).
  eexists _, _, shs, (assign_fields s style_arg). split; [done|].
  split; [apply (update_redraw_eq this points style_arg σ s bf bs shs); auto|].
  simpl. split; [by rewrite lookup_insert_eq|]. split.
  - intros Homit Hzero.
    assert (HF : skips_fill s style_arg = false).
    { unfold skips_fill. rewrite Homit. apply andb_false_r. }
    rewrite HF, Homit. simpl. split; [done|]. split; [done|].
    match goal with
    | |- context [fresh (dom (<[ ?k := ?b ]> ?gs))] =>
        destruct (fresh_after_insert gs k b) as (Hr1 & Hr2 & Hr3)
    end.
    destruct (skips_stroke s style_arg).
    + by rewrite lookup_insert_eq.
    + rewrite lookup_insert_ne by (apply Hr3; rewrite lookup_insert_eq; eauto).
      rewrite lookup_insert_ne by congruence.
      by rewrite lookup_insert_eq.
  - intros Homit Hzero.
    assert (HS : skips_stroke s style_arg = false).
    { unfold skips_stroke. rewrite Homit. apply andb_false_r. }
    rewrite HS, Homit. simpl. split; [done|].
    match goal with
    | |- context [fresh (dom (<[ ?k := ?b ]> ?gs))] =>
        destruct (fresh_after_insert gs k b) as (Hr1 & Hr2 & Hr3)
    end.
    split; [|split].
    + rewrite lookup_insert_ne, lookup_insert_eq by done. done.
    + destruct (skips_fill s style_arg); [done|].
      match type of Hr2 with
      | <[ ?k := _ ]> _ !! ?r = None =>
          destruct (decide (r = k)) as [Heq|Hneq];
          [rewrite Heq in Hr2; by rewrite lookup_insert_eq in Hr2
          |by rewrite lookup_insert_ne in Hr2]
      end.
    + by rewrite lookup_insert_eq.
Qed.

End Mobject.

Arguments styles {Geom} _.
Arguments geometries {Geom} _.
Arguments content {Geom} _.
Arguments disposed {Geom} _.
Arguments module_loaded {Geom}.
Arguments entity_ok {Geom} _ _.

(** * The properties on concrete inputs *)

Abbreviation fx_constructor :=
  (constructor Fixture.allClose Fixture.getPoint Fixture.getPoints
     Fixture.isPointInsidePolygon Fixture.Geom Fixture.MobjectFillBufferGeometry
     Fixture.extractPoints Fixture.MeshLine_geometry Fixture.mergeBufferGeometries).

Abbreviation fx_update :=
  (update Fixture.allClose Fixture.getPoint Fixture.getPoints
     Fixture.isPointInsidePolygon Fixture.Geom Fixture.fill_update
     Fixture.extractPoints Fixture.MeshLine_geometry Fixture.mergeBufferGeometries).

Lemma buildPaths_segment_count_witness :
  exists ps,
    buildPaths Fixture.allClose (Fixture.outer_square ++ Fixture.inner_square) = Ok ps /\
    segment_count ps = 8.
Proof.
  destruct (buildPaths_segment_count Fixture.allClose
              (Fixture.outer_square ++ Fixture.inner_square))
    as (ps & Hrun & Hcount & _); [reflexivity|].
  exists ps. split; [exact Hrun|exact Hcount].
Defined.

(** C2, as stated, fails on a sequence of one point: the builder throws a
    TypeError, raised by the read of [points[1]] past the end, and there is no
    InvalidGeometryInput condition. *)
Lemma buildPaths_one_point_TypeError :
  length [[0%Q; 0%Q; 0%Q]] mod 4 <> 0 /\
  buildPaths Fixture.allClose [[0%Q; 0%Q; 0%Q]] = Throw (TypeError "points" 1) /\
  ~ (exists e, buildPaths Fixture.allClose [[0%Q; 0%Q; 0%Q]] = Throw e /\
               exn_name e = "InvalidGeometryInput"%string).
Proof.
  split; [vm_compute; discriminate|]. split; [reflexivity|].
  intros (e & He & Hname). vm_compute in He. injection He as <-.
  vm_compute in Hname. discriminate Hname.
Qed.

Lemma buildPaths_partial_group_throws_witness :
  buildPaths Fixture.allClose (Fixture.outer_square ++ [[1%Q; 2%Q; 0%Q]])
  = Throw (TypeError "points" 17).
Proof.
  apply (buildPaths_partial_group_throws Fixture.allClose
           (Fixture.outer_square ++ [[1%Q; 2%Q; 0%Q]])).
  vm_compute. discriminate.
Defined.

(** C9, as stated, fails on the empty sequence: it is chained and its length
    is a multiple of 4, and the builder returns no path. *)
Lemma buildPaths_empty_no_path :
  length ([] : list Point) mod 4 = 0 /\
  chained Fixture.allClose [] /\
  buildPaths Fixture.allClose [] = Ok [] /\
  ~ (exists p, buildPaths Fixture.allClose [] = Ok [p]).
Proof.
  split; [reflexivity|]. split; [intros k pa pb Ha; discriminate Ha|].
  split; [reflexivity|]. intros (p & Hp). discriminate Hp.
Qed.

Lemma outer_square_chained : chained Fixture.allClose Fixture.outer_square.
Proof.
  intros k pa pb Ha Hb.
  destruct k as [|[|[|k]]].
  - vm_compute in Ha, Hb. injection Ha as <-. injection Hb as <-. reflexivity.
  - vm_compute in Ha, Hb. injection Ha as <-. injection Hb as <-. reflexivity.
  - vm_compute in Ha, Hb. injection Ha as <-. injection Hb as <-. reflexivity.
  - replace (4 * S (S (S k)) + 4) with (16 + 4 * k) in Hb by lia.
    discriminate Hb.
Defined.

Lemma buildPaths_chained_single_path_witness :
  exists p,
    buildPaths Fixture.allClose Fixture.outer_square = Ok [p] /\
    length (curves p) = 4.
Proof.
  destruct (buildPaths_chained_single_path Fixture.allClose Fixture.outer_square)
    as (p & Hrun & Hlen & _);
    [discriminate | reflexivity | exact outer_square_chained |].
  exists p. split; [exact Hrun|exact Hlen].
Defined.

Lemma classify_two_paths_one_hole_witness :
  exists A B,
    buildPaths Fixture.allClose (Fixture.inner_square ++ Fixture.outer_square)
    = Ok [B; A] /\
    exists s,
      classify Fixture.getPoint Fixture.getPoints Fixture.isPointInsidePolygon [B; A]
      = Ok [s] /\
      curves (outline s) = curves A /\ holes s = [B].
Proof.
  eexists _, _. split; [vm_compute; reflexivity|].
  apply classify_two_paths_one_hole;
    [right; reflexivity | vm_compute; reflexivity | vm_compute; reflexivity].
Defined.

Lemma classify_drops_path_after_decided_witness :
  exists A B C,
    buildPaths Fixture.allClose
      (Fixture.outer_square ++ Fixture.inner_square ++ Fixture.far_square)
    = Ok [A; B; C] /\
    exists s,
      classify Fixture.getPoint Fixture.getPoints Fixture.isPointInsidePolygon [A; B; C]
      = Ok [s] /\
      curves (outline s) = curves A /\ holes s = [B].
Proof.
  eexists _, _, _. split; [vm_compute; reflexivity|].
  apply classify_drops_path_after_decided;
    [vm_compute; reflexivity | vm_compute; reflexivity].
Defined.

Lemma update_without_redraw_keeps_geometry_witness :
  exists this σ this' σ',
    fx_constructor 7 Fixture.outer_square StyleArg.empty module_loaded = (Ok this, σ) /\
    fx_update this Fixture.inner_square
      {| StyleArg.strokeColor := Some 0xff0000%Q; StyleArg.strokeOpacity := None;
         StyleArg.fillColor := None; StyleArg.fillOpacity := Some (1 # 2)%Q;
         StyleArg.strokeWidth := Some 8%Q |} false σ = (Ok this', σ') /\
    geometries σ' = geometries σ /\
    shapes this' = shapes this /\
    opacity (material (fillMesh this')) = (1 # 2)%Q.
Proof.
  eassert (H1 : fx_constructor 7 Fixture.outer_square StyleArg.empty module_loaded
                = (Ok _, _)) by (vm_compute; reflexivity).
  match type of H1 with
  | _ = (Ok ?this, ?σ) =>
      edestruct (update_without_redraw_keeps_geometry Fixture.allClose Fixture.getPoint
                   Fixture.getPoints Fixture.isPointInsidePolygon Fixture.Geom
                   Fixture.fill_update Fixture.extractPoints Fixture.MeshLine_geometry
                   Fixture.mergeBufferGeometries this Fixture.inner_square
                   {| StyleArg.strokeColor := Some 0xff0000%Q;
                      StyleArg.strokeOpacity := None;
                      StyleArg.fillColor := None;
                      StyleArg.fillOpacity := Some (1 # 2)%Q;
                      StyleArg.strokeWidth := Some 8%Q |} σ)
        as (this' & σ' & Hu & Hg & _ & _ & Hsh & _ & _ & Hop & _);
        [vm_compute; reflexivity|];
      exists this, σ, this', σ'
  end.
  split; [exact H1|]. split; [exact Hu|]. split; [exact Hg|]. split; [exact Hsh|].
  exact Hop.
Defined.

Lemma update_redraw_invisible_fill_untouched_witness :
  exists this σ this' σ',
    fx_constructor 7 Fixture.outer_square
      {| StyleArg.strokeColor := None; StyleArg.strokeOpacity := None;
         StyleArg.fillColor := None; StyleArg.fillOpacity := Some 0%Q;
         StyleArg.strokeWidth := None |} module_loaded = (Ok this, σ) /\
    fx_update this Fixture.inner_square
      {| StyleArg.strokeColor := None; StyleArg.strokeOpacity := None;
         StyleArg.fillColor := None; StyleArg.fillOpacity := Some 0%Q;
         StyleArg.strokeWidth := None |} true σ = (Ok this', σ') /\
    geometries σ' !! geometry (fillMesh this) = geometries σ !! geometry (fillMesh this) /\
    geometries σ !! geometry (strokeMesh this') = None.
Proof.
  eassert (H1 : fx_constructor 7 Fixture.outer_square
                  {| StyleArg.strokeColor := None; StyleArg.strokeOpacity := None;
                     StyleArg.fillColor := None; StyleArg.fillOpacity := Some 0%Q;
                     StyleArg.strokeWidth := None |} module_loaded
                = (Ok _, _)) by (vm_compute; reflexivity).
  match type of H1 with
  | _ = (Ok ?this, ?σ) =>
      edestruct (update_redraw_invisible_fill_untouched Fixture.allClose Fixture.getPoint
                   Fixture.getPoints Fixture.isPointInsidePolygon Fixture.Geom
                   Fixture.fill_update Fixture.extractPoints Fixture.MeshLine_geometry
                   Fixture.mergeBufferGeometries this Fixture.inner_square
                   {| StyleArg.strokeColor := None; StyleArg.strokeOpacity := None;
                      StyleArg.fillColor := None; StyleArg.fillOpacity := Some 0%Q;
                      StyleArg.strokeWidth := None |} σ)
        as (this' & σ' & shs & _ & Hu & _ & Hbuf & Hstroke);
        [discriminate | reflexivity | vm_compute; reflexivity | vm_compute; reflexivity
        | vm_compute; reflexivity | vm_compute; discriminate
        | vm_compute; reflexivity | vm_compute; reflexivity | ];
      exists this, σ, this', σ'
  end.
  split; [exact H1|]. split; [exact Hu|]. split.
  - rewrite Hbuf. vm_compute. reflexivity.
  - apply Hstroke. left. vm_compute. reflexivity.
Defined.

(** C5, as stated, fails on the empty sequence: the current fill opacity and
    the fill opacity of the argument are 0 and the current stroke opacity is
    not, and the call throws in the merge of no stroke geometries after it
    disposed the old stroke geometry: nothing is rebuilt, the store holds no
    new geometry and the style is not merged. *)
Lemma update_redraw_empty_points_not_rebuilt :
  exists this σ s bs,
    fx_constructor 7 Fixture.outer_square
      {| StyleArg.strokeColor := None; StyleArg.strokeOpacity := None;
         StyleArg.fillColor := None; StyleArg.fillOpacity := Some 0%Q;
         StyleArg.strokeWidth := None |} module_loaded = (Ok this, σ) /\
    styles σ !! style this = Some s /\
    strict_eq_0 (Some (fillOpacity s)) = true /\
    strict_eq_0 (Some (strokeOpacity s)) = false /\
    geometries σ !! geometry (strokeMesh this) = Some bs /\
    disposed bs = false /\
    fx_update this []
      {| StyleArg.strokeColor := None; StyleArg.strokeOpacity := None;
         StyleArg.fillColor := None; StyleArg.fillOpacity := Some 0%Q;
         StyleArg.strokeWidth := None |} true σ
    = (Throw (TypeError "geometries" 0),
       {| styles := styles σ;
          geometries :=
            <[ geometry (strokeMesh this) :=
                 {| content := content bs; disposed := true |} ]> (geometries σ) |}).
Proof.
  eexists _, _, _, _. split; [vm_compute; reflexivity|].
  split; [vm_compute; reflexivity|]. split; [vm_compute; reflexivity|].
  split; [vm_compute; reflexivity|]. split; [vm_compute; reflexivity|].
  split; [reflexivity|]. vm_compute. reflexivity.
Qed.

(** C10, as stated, fails on the empty sequence: the argument omits
    [strokeOpacity] and the current stroke opacity is 0; the stroke geometry
    is disposed and the fill geometry updated, but the call throws in the
    merge of no stroke geometries and the stroke geometry is not replaced. *)
Lemma update_empty_points_stroke_not_replaced :
  exists this σ s bf bs,
    fx_constructor 7 Fixture.outer_square
      {| StyleArg.strokeColor := None; StyleArg.strokeOpacity := Some 0%Q;
         StyleArg.fillColor := None; StyleArg.fillOpacity := Some 0%Q;
         StyleArg.strokeWidth := None |} module_loaded = (Ok this, σ) /\
    styles σ !! style this = Some s /\
    strict_eq_0 (Some (strokeOpacity s)) = true /\
    StyleArg.strokeOpacity StyleArg.empty = None /\
    geometries σ !! geometry (fillMesh this) = Some bf /\
    geometries σ !! geometry (strokeMesh this) = Some bs /\
    disposed bs = false /\
    fx_update this [] StyleArg.empty true σ
    = (Throw (TypeError "geometries" 0),
       {| styles := styles σ;
          geometries :=
            <[ geometry (strokeMesh this) :=
                 {| content := content bs; disposed := true |} ]>
              (<[ geometry (fillMesh this) :=
                    {| content := Fixture.fill_update (content bf) [];
                       disposed := disposed bf |} ]> (geometries σ)) |}).
Proof.
  eexists _, _, _, _, _. split; [vm_compute; reflexivity|].
  split; [vm_compute; reflexivity|]. split; [vm_compute; reflexivity|].
  split; [reflexivity|]. split; [vm_compute; reflexivity|].
  split; [vm_compute; reflexivity|]. split; [reflexivity|]. vm_compute. reflexivity.
Qed.

Lemma update_skip_tests_raw_argument_witness :
  exists this σ this' σ' b,
    fx_constructor 7 Fixture.outer_square
      {| StyleArg.strokeColor := None; StyleArg.strokeOpacity := Some 0%Q;
         StyleArg.fillColor := None; StyleArg.fillOpacity := Some 0%Q;
         StyleArg.strokeWidth := None |} module_loaded = (Ok this, σ) /\
    fx_update this Fixture.outer_square StyleArg.empty true σ = (Ok this', σ') /\
    geometries σ' !! geometry (fillMesh this') = Some b /\
    content b <> Fixture.MobjectFillBufferGeometry (shapes this) 11 /\
    geometries σ !! geometry (strokeMesh this') = None.
Proof.
  eassert (H1 : fx_constructor 7 Fixture.outer_square
                  {| StyleArg.strokeColor := None; StyleArg.strokeOpacity := Some 0%Q;
                     StyleArg.fillColor := None; StyleArg.fillOpacity := Some 0%Q;
                     StyleArg.strokeWidth := None |} module_loaded
                = (Ok _, _)) by (vm_compute; reflexivity).
  match type of H1 with
  | _ = (Ok ?this, ?σ) =>
      edestruct (update_skip_tests_raw_argument Fixture.allClose Fixture.getPoint
                   Fixture.getPoints Fixture.isPointInsidePolygon Fixture.Geom
                   Fixture.fill_update Fixture.extractPoints Fixture.MeshLine_geometry
                   Fixture.mergeBufferGeometries this Fixture.outer_square
                   StyleArg.empty σ)
        as (this' & σ' & shs & s' & Hshs & Hu & _ & Hfill & Hstroke);
        [discriminate | reflexivity | vm_compute; reflexivity | vm_compute; reflexivity
        | vm_compute; reflexivity | vm_compute; discriminate | ];
      exists this, σ, this', σ'
  end.
  destruct Hfill as (_ & _ & Hbuf); [reflexivity | vm_compute; reflexivity |].
  destruct Hstroke as (_ & _ & Hnew & _); [reflexivity | vm_compute; reflexivity |].
  eexists. split; [exact H1|]. split; [exact Hu|]. split; [exact Hbuf|].
  split; [|exact Hnew].
  vm_compute in Hshs. injection Hshs as <-. vm_compute. discriminate.
Defined.

Lemma constructed_entities_share_style_witness :
  exists m1 σ1 m2 σ2 m1' σ3,
    fx_constructor 1 Fixture.outer_square StyleArg.empty module_loaded = (Ok m1, σ1) /\
    fx_constructor 2 Fixture.far_square StyleArg.empty σ1 = (Ok m2, σ2) /\
    fx_update m1 Fixture.outer_square
      {| StyleArg.strokeColor := None; StyleArg.strokeOpacity := None;
         StyleArg.fillColor := Some 0xff0000%Q; StyleArg.fillOpacity := None;
         StyleArg.strokeWidth := None |} false σ2 = (Ok m1', σ3) /\
    style m1 = style m2 /\
    exists s, styles σ3 !! style m2 = Some s /\ fillColor s = 0xff0000%Q.
Proof.
  eassert (H1 : fx_constructor 1 Fixture.outer_square StyleArg.empty module_loaded
                = (Ok _, _)) by (vm_compute; reflexivity).
  match type of H1 with
  | _ = (Ok ?m1, ?σ1) =>
      eassert (H2 : fx_constructor 2 Fixture.far_square StyleArg.empty σ1
                    = (Ok _, _)) by (vm_compute; reflexivity);
      match type of H2 with
      | _ = (Ok ?m2, ?σ2) =>
          eassert (H3 : fx_update m1 Fixture.outer_square
                          {| StyleArg.strokeColor := None; StyleArg.strokeOpacity := None;
                             StyleArg.fillColor := Some 0xff0000%Q;
                             StyleArg.fillOpacity := None;
                             StyleArg.strokeWidth := None |} false σ2
                        = (Ok _, _)) by (vm_compute; reflexivity);
          match type of H3 with
          | _ = (Ok ?m1', ?σ3) =>
              assert (Hs : styles σ2 !! DEFAULT_STYLE = Some DEFAULT_STYLE_literal)
                by (vm_compute; reflexivity);
              destruct (constructed_entities_share_style _ _ _ _ _ _ _ _ _ _
                          _ _ _ _ _ _ _ _ _ _ _ _ _ _ _ _ _ _ _ H1 H2 Hs H3)
                as (C1 & C2 & _ & C4 & _);
              exists m1, σ1, m2, σ2, m1', σ3
          end
      end
  end.
  split; [exact H1|]. split; [exact H2|]. split; [exact H3|].
  split; [by rewrite C1, C2|].
  eexists. split; [exact C4|]. reflexivity.
Defined.

(** Three squares, the second inside the first and the third apart: three
    paths are built and one shape comes back. *)
Example computeShapes_three_squares :
  exists A B C,
    buildPaths Fixture.allClose
      (Fixture.outer_square ++ Fixture.inner_square ++ Fixture.far_square)
    = Ok [A; B; C] /\
    computeShapes Fixture.allClose Fixture.getPoint Fixture.getPoints
      Fixture.isPointInsidePolygon
      (Fixture.outer_square ++ Fixture.inner_square ++ Fixture.far_square)
    = Ok [ {| outline := {| curves := curves A; currentPoint := currentPoint new_Path |};
              holes := [B] |} ].
Proof. eexists _, _, _. split; vm_compute; reflexivity. Qed.

(** The same squares with the lone one first: it is kept, as a trivial shape
    after the shape with the hole. *)
Example computeShapes_lone_square_first :
  exists A B C,
    buildPaths Fixture.allClose
      (Fixture.far_square ++ Fixture.outer_square ++ Fixture.inner_square)
    = Ok [C; A; B] /\
    computeShapes Fixture.allClose Fixture.getPoint Fixture.getPoints
      Fixture.isPointInsidePolygon
      (Fixture.far_square ++ Fixture.outer_square ++ Fixture.inner_square)
    = Ok [ {| outline := {| curves := curves A; currentPoint := currentPoint new_Path |};
              holes := [B] |};
           {| outline := {| curves := curves C; currentPoint := currentPoint new_Path |};
              holes := [] |} ].
Proof. eexists _, _, _. split; vm_compute; reflexivity. Qed.

(** ** The further properties on concrete inputs *)

Lemma buildPaths_paths_nonempty_witness :
  exists ps,
    buildPaths Fixture.allClose (Fixture.outer_square ++ Fixture.far_square) = Ok ps /\
    Forall (fun p => curves p <> []) ps.
Proof.
  apply (buildPaths_paths_nonempty Fixture.allClose
           (Fixture.outer_square ++ Fixture.far_square)).
  reflexivity.
Defined.

Lemma buildPaths_curves_in_order_witness :
  exists ps c,
    buildPaths Fixture.allClose (Fixture.outer_square ++ Fixture.inner_square) = Ok ps /\
    concat (map curves ps) !! 5 = Some c /\
    segment_curve Fixture.allClose (Fixture.outer_square ++ Fixture.inner_square) 5
    = Some c.
Proof.
  destruct (buildPaths_curves_in_order Fixture.allClose
              (Fixture.outer_square ++ Fixture.inner_square))
    as (ps & Hrun & _ & Hsegs); [reflexivity|].
  destruct (Hsegs 5) as (c & Hc & Hseg); [vm_compute; lia|].
  exists ps, c. split; [exact Hrun|]. split; [exact Hc|exact Hseg].
Defined.

Lemma buildPaths_path_count_witness :
  exists ps,
    buildPaths Fixture.allClose
      (Fixture.outer_square ++ Fixture.inner_square ++ Fixture.far_square) = Ok ps /\
    length ps = 3.
Proof.
  destruct (buildPaths_path_count Fixture.allClose
              (Fixture.outer_square ++ Fixture.inner_square ++ Fixture.far_square))
    as (ps & Hrun & Hlen); [reflexivity|].
  exists ps. split; [exact Hrun|]. rewrite Hlen. vm_compute. reflexivity.
Defined.

Lemma classify_no_containment_witness :
  exists A C,
    buildPaths Fixture.allClose (Fixture.outer_square ++ Fixture.far_square)
    = Ok [A; C] /\
    classify Fixture.getPoint Fixture.getPoints Fixture.isPointInsidePolygon [A; C]
    = Ok [trivial_shape A; trivial_shape C].
Proof.
  eexists _, _. split; [vm_compute; reflexivity|].
  apply (classify_no_containment Fixture.getPoint Fixture.getPoints
           Fixture.isPointInsidePolygon).
  intros i j a b Hij Ha Hb.
  destruct i as [|[|i]]; destruct j as [|[|j]];
    try discriminate Ha; try discriminate Hb; try (exfalso; apply Hij; reflexivity).
  - injection Ha as <-. injection Hb as <-. vm_compute. reflexivity.
  - injection Ha as <-. injection Hb as <-. vm_compute. reflexivity.
Defined.

Lemma classify_first_path_outer_witness :
  exists A B C,
    buildPaths Fixture.allClose
      (Fixture.outer_square ++ Fixture.inner_square ++ Fixture.far_square)
    = Ok [A; B; C] /\
    exists shs,
      classify Fixture.getPoint Fixture.getPoints Fixture.isPointInsidePolygon [A; B; C]
      = Ok shs /\
      Forall (fun s => holes s <> []) shs.
Proof.
  eexists _, _, _. split; [vm_compute; reflexivity|].
  apply (classify_first_path_outer Fixture.getPoint Fixture.getPoints
           Fixture.isPointInsidePolygon).
  eexists 1, _, _. split; [lia|]. split; [reflexivity|]. split; [reflexivity|].
  vm_compute. reflexivity.
Defined.

Lemma computeShapes_single_contour_witness :
  exists s c,
    computeShapes Fixture.allClose Fixture.getPoint Fixture.getPoints
      Fixture.isPointInsidePolygon Fixture.outer_square = Ok [s] /\
    holes s = [] /\ length (curves (outline s)) = 4 /\
    curves (outline s) !! 3 = Some c /\ is_segment Fixture.outer_square 3 c.
Proof.
  destruct (computeShapes_single_contour Fixture.allClose Fixture.getPoint
              Fixture.getPoints Fixture.isPointInsidePolygon Fixture.outer_square)
    as (s & Hrun & Hholes & Hlen & Hsegs);
    [discriminate | reflexivity | exact outer_square_chained |].
  destruct (Hsegs 3) as (c & Hc & Hseg); [vm_compute; lia|].
  exists s, c. split; [exact Hrun|]. split; [exact Hholes|].
  split; [exact Hlen|]. split; [exact Hc|exact Hseg].
Defined.

Lemma constructor_throws_after_style_merge_witness :
  fx_constructor 1 [[0%Q; 0%Q; 0%Q]]
    {| StyleArg.strokeColor := None; StyleArg.strokeOpacity := None;
       StyleArg.fillColor := None; StyleArg.fillOpacity := Some 0%Q;
       StyleArg.strokeWidth := None |} module_loaded
  = (Throw (TypeError "points" 1),
     {| styles :=
          <[ DEFAULT_STYLE :=
               assign_fields DEFAULT_STYLE_literal
                 {| StyleArg.strokeColor := None; StyleArg.strokeOpacity := None;
                    StyleArg.fillColor := None; StyleArg.fillOpacity := Some 0%Q;
                    StyleArg.strokeWidth := None |} ]>
            (styles (@module_loaded Fixture.Geom));
        geometries := geometries (@module_loaded Fixture.Geom) |}).
Proof.
  apply (constructor_throws_after_style_merge Fixture.allClose Fixture.getPoint
           Fixture.getPoints Fixture.isPointInsidePolygon Fixture.Geom
           Fixture.MobjectFillBufferGeometry Fixture.extractPoints
           Fixture.MeshLine_geometry Fixture.mergeBufferGeometries
           1 [[0%Q; 0%Q; 0%Q]]).
  - vm_compute. discriminate.
  - reflexivity.
Defined.

Lemma update_redraw_throws_witness :
  exists this σ,
    fx_constructor 7 Fixture.outer_square StyleArg.empty module_loaded = (Ok this, σ) /\
    fx_update this (Fixture.outer_square ++ [[1%Q; 2%Q; 0%Q]]) StyleArg.empty true σ
    = (Throw (TypeError "points" 17), σ).
Proof.
  eexists _, _. split; [vm_compute; reflexivity|].
  apply (update_redraw_throws Fixture.allClose Fixture.getPoint Fixture.getPoints
           Fixture.isPointInsidePolygon Fixture.Geom Fixture.fill_update
           Fixture.extractPoints Fixture.MeshLine_geometry Fixture.mergeBufferGeometries
           _ (Fixture.outer_square ++ [[1%Q; 2%Q; 0%Q]])).
  vm_compute. discriminate.
Defined.

Lemma constructor_allocates_fresh_buffers_witness :
  exists this σ',
    fx_constructor 1 Fixture.outer_square StyleArg.empty module_loaded = (Ok this, σ') /\
    geometry (fillMesh this) <> geometry (strokeMesh this) /\
    exists b, geometries σ' !! geometry (strokeMesh this) = Some b /\ disposed b = false.
Proof.
  destruct (constructor_allocates_fresh_buffers Fixture.allClose Fixture.getPoint
              Fixture.getPoints Fixture.isPointInsidePolygon Fixture.Geom
              Fixture.MobjectFillBufferGeometry Fixture.extractPoints
              Fixture.MeshLine_geometry Fixture.mergeBufferGeometries
              1 Fixture.outer_square StyleArg.empty module_loaded DEFAULT_STYLE_literal)
    as (this & σ' & shs & _ & Hc & _ & _ & _ & _ & Hne & _ & Hs & _);
    [discriminate | reflexivity | reflexivity |].
  exists this, σ'. split; [exact Hc|]. split; [exact Hne|].
  eexists. split; [exact Hs|reflexivity].
Defined.

Lemma update_entity_ok_witness :
  exists this σ this' σ',
    fx_constructor 7 Fixture.outer_square StyleArg.empty module_loaded = (Ok this, σ) /\
    fx_update this Fixture.inner_square StyleArg.empty true σ = (Ok this', σ') /\
    entity_ok σ' this'.
Proof.
  eassert (H1 : fx_constructor 7 Fixture.outer_square StyleArg.empty module_loaded
                = (Ok _, _)) by (vm_compute; reflexivity).
  match type of H1 with
  | _ = (Ok ?this, ?σ) =>
      eassert (H2 : fx_update this Fixture.inner_square StyleArg.empty true σ
                    = (Ok _, _)) by (vm_compute; reflexivity);
      match type of H2 with
      | _ = (Ok ?this', ?σ') => exists this, σ, this', σ'
      end
  end.
  split; [exact H1|]. split; [exact H2|].
  exact (update_entity_ok _ _ _ _ _ _ _ _ _ _ _ _ _ _ _ _
           (constructor_entity_ok _ _ _ _ _ _ _ _ _ _ _ _ _ _ _ H1) H2).
Defined.

Lemma update_keeps_other_objects_witness :
  exists m1 σ1 m2 σ2 m2' σ3,
    fx_constructor 1 Fixture.outer_square StyleArg.empty module_loaded = (Ok m1, σ1) /\
    fx_constructor 2 Fixture.far_square StyleArg.empty σ1 = (Ok m2, σ2) /\
    fx_update m2 Fixture.inner_square StyleArg.empty true σ2 = (Ok m2', σ3) /\
    geometries σ3 !! geometry (fillMesh m1) = geometries σ2 !! geometry (fillMesh m1) /\
    geometries σ3 !! geometry (strokeMesh m1) = geometries σ2 !! geometry (strokeMesh m1).
Proof.
  eassert (H1 : fx_constructor 1 Fixture.outer_square StyleArg.empty module_loaded
                = (Ok _, _)) by (vm_compute; reflexivity).
  match type of H1 with
  | _ = (Ok ?m1, ?σ1) =>
      eassert (H2 : fx_constructor 2 Fixture.far_square StyleArg.empty σ1
                    = (Ok _, _)) by (vm_compute; reflexivity);
      match type of H2 with
      | _ = (Ok ?m2, ?σ2) =>
          eassert (H3 : fx_update m2 Fixture.inner_square StyleArg.empty true σ2
                        = (Ok _, _)) by (vm_compute; reflexivity);
          match type of H3 with
          | _ = (Ok ?m2', ?σ3) =>
              destruct (update_keeps_other_objects _ _ _ _ _ _ _ _ _ _ _ _ _ _ _ _
                          (constructor_entity_ok _ _ _ _ _ _ _ _ _ _ _ _ _ _ _ H2) H3)
                as (Hbuf & _);
              exists m1, σ1, m2, σ2, m2', σ3
          end
      end
  end.
  split; [exact H1|]. split; [exact H2|]. split; [exact H3|]. split.
  - apply Hbuf; [vm_compute; discriminate | vm_compute; discriminate
                | vm_compute; eexists; reflexivity].
  - apply Hbuf; [vm_compute; discriminate | vm_compute; discriminate
                | vm_compute; eexists; reflexivity].
Defined.

Lemma constructor_empty_points_throws_witness :
  fst (fx_constructor 1 [] StyleArg.empty module_loaded)
  = Throw (TypeError "geometries" 0).
Proof.
  rewrite (constructor_empty_points_throws Fixture.allClose Fixture.getPoint
             Fixture.getPoints Fixture.isPointInsidePolygon Fixture.Geom
             Fixture.MobjectFillBufferGeometry Fixture.extractPoints
             Fixture.MeshLine_geometry Fixture.mergeBufferGeometries
             1 StyleArg.empty module_loaded DEFAULT_STYLE_literal);
    reflexivity.
Defined.
